(** * PlasmaPy [ParticleTracker]: a shallow embedding and its properties

    The development follows [src/plasmapy/simulation/particle_tracker.py].
    NumPy [float64] values are IEEE 754 binary64 numbers, taken from the
    standard library's executable specification [SpecFloat]; astropy units
    are conversions done at the boundary and every array below already holds
    plain SI values. *)

From Stdlib Require Import String ZArith NArith List Bool Lia SpecFloat.
Import ListNotations.

Set Implicit Arguments.

(** ** Python exceptions and fallible computations *)

Inductive exn : Type :=
| TypeError | ValueError | RuntimeError | IndexError | KeyError
| NameError | AttributeError.

Inductive result (A : Type) : Type :=
| Ok (a : A)
| Raise (e : exn).

Arguments Ok {A} a.
Arguments Raise {A} e.

Definition bind {A B : Type} (c : result A) (k : A -> result B) : result B :=
  match c with
  | Ok a => k a
  | Raise e => Raise e
  end.

Declare Scope result_scope.
Delimit Scope result_scope with result.
Notation "a <- c ;; k" := (bind c (fun a => k))
  (at level 61, c at next level, right associativity) : result_scope.
Open Scope result_scope.

Fixpoint mapM {A B : Type} (f : A -> result B) (l : list A) : result (list B) :=
  match l with
  | [] => Ok []
  | a :: l' => b <- f a ;; bs <- mapM f l' ;; Ok (b :: bs)
  end.

(** ** binary64 arithmetic *)

Module F64.

Definition float : Type := spec_float.

Definition prec : Z := 53.
Definition emax : Z := 1024.

Definition add : float -> float -> float := SFadd prec emax.
Definition mul : float -> float -> float := SFmul prec emax.
Definition div : float -> float -> float := SFdiv prec emax.
Definition sqrt : float -> float := SFsqrt prec emax.
Definition abs : float -> float := SFabs.
Definition eqb : float -> float -> bool := SFeqb.
Definition ltb : float -> float -> bool := SFltb.
Definition leb : float -> float -> bool := SFleb.
(** Python's [a > b] and [a >= b]. *)
Definition gtb (a b : float) : bool := SFltb b a.
Definition geb (a b : float) : bool := SFleb b a.

Definition zero : float := S754_zero false.
Definition inf : float := S754_infinity false.
Definition nan : float := S754_nan.
Definition of_Z (z : Z) : float := binary_normalize prec emax z 0 false.
Definition one : float := of_Z 1.
Definition two : float := of_Z 2.
Definition twelve : float := of_Z 12.
(** [0.5] *)
Definition half : float := S754_finite false 4503599627370496 (-53).
(** [1e-3], the binary64 number nearest to 1/1000 *)
Definition milli : float := S754_finite false 4611686018427388 (-62).
(** [np.pi] *)
Definition pi : float := S754_finite false 7074237752028440 (-51).
(** [np.finfo(np.float64).max] *)
Definition max_float : float := SFmax_float prec emax.

Definition isnan (a : float) : bool :=
  match a with S754_nan => true | _ => false end.

Definition isfinite (a : float) : bool :=
  match a with
  | S754_zero _ | S754_finite _ _ _ => true
  | S754_infinity _ | S754_nan => false
  end.

Definition is_zero (a : float) : bool :=
  match a with S754_zero _ => true | _ => false end.

End F64.

Abbreviation float := F64.float.

(** ** The NumPy functions the tracker calls *)

(** [np.maximum] and [np.minimum] on two scalars: a NaN operand wins. *)
Definition np_maximum (a b : float) : float :=
  if F64.isnan a then a else if F64.geb a b then a else b.

Definition np_minimum (a b : float) : float :=
  if F64.isnan a then a else if F64.leb a b then a else b.

(** [np.max] and [np.min] of a flat array; a zero-size array raises
    [ValueError]. *)
Definition np_max (l : list float) : result float :=
  match l with
  | [] => Raise ValueError
  | a :: l' => Ok (fold_left np_maximum l' a)
  end.

Definition np_min (l : list float) : result float :=
  match l with
  | [] => Raise ValueError
  | a :: l' => Ok (fold_left np_minimum l' a)
  end.

(** [np.clip(a, a_min, a_max)], that is
    [np.minimum(a_max, np.maximum(a, a_min))]. *)
Definition np_clip (a a_min a_max : float) : float :=
  np_minimum a_max (np_maximum a a_min).

(** [np.nan_to_num(a, nan=0.0)]: NaN becomes the given [0.0]; [posinf] and
    [neginf] are left at their defaults, so an infinity becomes the largest
    finite number of its sign. *)
Definition nan_to_num (a : float) : float :=
  match a with
  | S754_nan => F64.zero
  | S754_infinity false => F64.max_float
  | S754_infinity true => SFopp F64.max_float
  | _ => a
  end.

(** A row of an [N,3] array. *)
Definition vec3 : Type := (float * float * float)%type.

(** [np.linalg.norm(row)]: the square root of the sum of the squares. *)
Definition norm (w : vec3) : float :=
  let '(a, b, c) := w in
  F64.sqrt (F64.add (F64.add (F64.mul a a) (F64.mul b b)) (F64.mul c c)).

(** [np.sum(mask)] of a row of booleans. *)
Definition count_true (row : list bool) : N :=
  N.of_nat (length (filter (fun b => b) row)).

(** A three-dimensional array as nested rows, [arr[i][j][k]]. *)
Definition array3 : Type := list (list (list float)).

Definition flatten3 (arr : array3) : list float := concat (concat arr).

(** Index [0] and index [-1] along one axis; a zero-length axis raises
    [IndexError]. *)
Definition first {A : Type} (l : list A) : result A :=
  match l with
  | [] => Raise IndexError
  | a :: _ => Ok a
  end.

Fixpoint final {A : Type} (l : list A) : result A :=
  match l with
  | [] => Raise IndexError
  | [a] => Ok a
  | _ :: l' => final l'
  end.

(** The six boundary faces of the tuple in [__init__], in its order:
    [arr[0,:,:]], [arr[-1,:,:]], [arr[:,0,:]], [arr[:,-1,:]], [arr[:,:,0]],
    [arr[:,:,-1]].  The tuple is built before any maximum is taken. *)
Definition faces (arr : array3) : result (list (list (list float))) :=
  f1 <- first arr ;;
  f2 <- final arr ;;
  f3 <- mapM first arr ;;
  f4 <- mapM final arr ;;
  f5 <- mapM (mapM first) arr ;;
  f6 <- mapM (mapM final) arr ;;
  Ok [f1; f2; f3; f4; f5; f6].

(** [np.max(np.array([np.max(a) for a in faces]))] *)
Definition edge_max (arr : array3) : result float :=
  fs <- faces arr ;;
  ms <- mapM (fun a => np_max (concat a)) fs ;;
  np_max ms.

Fixpoint zip_with {A B C : Type} (f : A -> B -> C) (l : list A) (l' : list B)
  : list C :=
  match l, l' with
  | a :: t, b :: t' => f a b :: zip_with f t t'
  | _, _ => []
  end.

(** [a[i]] on a flat array; an index out of range raises [IndexError]. *)
Definition nth_error_or_raise {A : Type} (l : list A) (i : nat) : result A :=
  match nth_error l i with
  | Some a => Ok a
  | None => Raise IndexError
  end.

(** A dictionary lookup, [d[key]]; a missing key raises [KeyError]. *)
Fixpoint lookup {A : Type} (key : string) (d : list (string * A)) : result A :=
  match d with
  | [] => Raise KeyError
  | (k, a) :: d' => if String.eqb key k then Ok a else lookup key d'
  end.

(** ** The field grids

    [AbstractGrid] lives in [plasmapy.plasma.grids]; the tracker only uses
    the members below, which are taken as they are: the quantity arrays,
    the table of recognized quantity keys with their units, the resolution
    in metres, the membership test and the two interpolators (at one
    position each; the arrays of the source hold one entry per particle). *)

Record fields : Type := mkFields {
  Ex : float; Ey : float; Ez : float;
  Bx : float; By : float; Bz : float
}.

Module Grid.

Record AbstractGrid : Type := mkGrid {
  quantities : list (string * array3);
  recognized_quantities : list (string * string);
  grid_resolution : float;
  on_grid : vec3 -> bool;
  volume_averaged_interpolator : vec3 -> fields;
  nearest_neighbor_interpolator : vec3 -> fields;
  (** what [require_quantities(req_quantities, replace_with_zeros)] leaves
      in [quantities], or the exception it raises *)
  required : option (list string) -> bool -> result (list (string * array3))
}.

(** [grid[rq]] *)
Definition getitem (grid : AbstractGrid) (rq : string) : result array3 :=
  lookup rq (quantities grid).

(** [grid.require_quantities(req_quantities, replace_with_zeros=...)]
    updates the grid in place. *)
Definition require_quantities (grid : AbstractGrid)
    (req_quantities : option (list string)) (replace_with_zeros : bool)
  : result AbstractGrid :=
  table <- required grid req_quantities replace_with_zeros ;;
  Ok (mkGrid table (recognized_quantities grid) (grid_resolution grid)
        (on_grid grid) (volume_averaged_interpolator grid)
        (nearest_neighbor_interpolator grid) (required grid)).

End Grid.

Abbreviation AbstractGrid := Grid.AbstractGrid.

(** ** The integrator

    [boris_push] lives in [plasmapy.simulation.particle_integrators]; it
    advances every particle on its own, so it is taken at one particle:
    position, velocity, B, E, charge, mass and that particle's [dt]. *)

Class Integrator : Type := {
  boris_push :
    vec3 -> vec3 -> vec3 -> vec3 -> float -> float -> float -> vec3 * vec3
}.

(** ** The tracker object *)

(** The [RuntimeWarning] that [__init__] itself emits: the quantity, the
    value found on the edge and the unit of the quantity.  (What
    [require_quantities] may warn of is the grid's own business.) *)
Record RuntimeWarning : Type := mkWarning {
  warn_quantity : string;
  warn_edge_max : float;
  warn_unit : string
}.

(** The attributes of a [ParticleTracker], but for [grids_arr], the grid
    positions in metres, which no method reads.  [x] is [None] until
    [load_particles] has set it ([hasattr(self, "x")] is false); the other
    attributes that a method sets later hold a placeholder until then and
    are never read before they are set.  [entered_grid] is a [float64] array
    that only ever holds sums of counts, kept here as exact naturals. *)
Record ParticleTracker : Type := mkTracker {
  grids : list AbstractGrid;
  verbose : bool;
  _has_run : bool;
  q : float;
  m : float;
  nparticles : nat;
  x : option (list vec3);
  v : list vec3;
  field_weighting : string;
  nparticles_tracked : nat;
  dt : list float;
  on_grid : list (list bool);
  entered_grid : list N
}.

(** The [grids] argument of the constructor: one grid, a collection of
    grids that can be gone through more than once (a list, a tuple), or
    anything else. *)
Inductive grids_arg : Type :=
| OneGrid (grid : AbstractGrid)
| GridIterable (gs : list AbstractGrid)
| OtherObject.

(** One pass of the body of [for rq in req_quantities]: the warning it
    emits, if any, or the exception that ends the constructor. *)
Definition check_quantity (grid : AbstractGrid) (rq : string)
  : result (list RuntimeWarning) :=
  values <- Grid.getitem grid rq ;;
  if negb (forallb F64.isfinite (flatten3 values)) then Raise ValueError
  else
    let arr := map (map (map F64.abs)) values in
    em <- edge_max arr ;;
    mx <- np_max (flatten3 arr) ;;
    if F64.gtb em (F64.mul F64.milli mx) then
      unit <- lookup rq (Grid.recognized_quantities grid) ;;
      Ok [mkWarning rq em unit]
    else Ok [].

(** [for rq in req_quantities: ...] over a list, with the warnings emitted
    so far. *)
Fixpoint check_quantities (grid : AbstractGrid) (rqs : list string)
  : list RuntimeWarning * result unit :=
  match rqs with
  | [] => ([], Ok tt)
  | rq :: rqs' =>
      match check_quantity grid rq with
      | Raise e => ([], Raise e)
      | Ok w =>
          let '(ws, r) := check_quantities grid rqs' in (w ++ ws, r)
      end
  end.

(** [for grid in self.grids: ...]; iterating over [None] raises
    [TypeError].  The grids are the objects the tracker keeps, so it sees
    what [require_quantities] filled in. *)
Fixpoint validate_grids (gs : list AbstractGrid)
    (req_quantities : option (list string))
  : list RuntimeWarning * result (list AbstractGrid) :=
  match gs with
  | [] => ([], Ok [])
  | grid :: gs' =>
      match Grid.require_quantities grid req_quantities true with
      | Raise e => ([], Raise e)
      | Ok grid' =>
          match req_quantities with
          | None => ([], Raise TypeError)
          | Some rqs =>
              match check_quantities grid' rqs with
              | (ws, Raise e) => (ws, Raise e)
              | (ws, Ok _) =>
                  let '(ws', r) := validate_grids gs' req_quantities in
                  (ws ++ ws', gs'' <- r ;; Ok (grid' :: gs''))
              end
          end
      end
  end.

Definition __init__ (arg : grids_arg) (req_quantities : option (list string))
    (verbose : bool) : list RuntimeWarning * result ParticleTracker :=
  match
    match arg with
    | OneGrid grid => Ok [grid]
    | GridIterable gs => Ok gs
    | OtherObject => Raise TypeError
    end
  with
  | Raise e => ([], Raise e)
  | Ok gs =>
      let '(ws, r) := validate_grids gs req_quantities in
      (ws,
       gs' <- r ;;
       Ok (mkTracker gs' verbose false F64.zero F64.zero 0 None [] ""
             0 [] [] []))
  end.

Definition num_grids (self : ParticleTracker) : nat := length (grids self).

Definition _enforce_order (self : ParticleTracker) : result unit :=
  if _has_run self then Raise RuntimeError else Ok tt.

(** [load_particles(x, v, particle)]; [particle] gives the charge in C and
    the mass in kg.  The method assigns [self.q] and [self.m] before it
    compares the shapes of [x] and [v], so a call that raises there has
    already changed the tracker: the result is the tracker as the call
    leaves it, together with how the call ends. *)
Definition load_particles (self : ParticleTracker) (pos vel : list vec3)
    (charge mass : float) : ParticleTracker * result unit :=
  match _enforce_order self with
  | Raise e => (self, Raise e)
  | Ok _ =>
      if negb (length pos =? length vel) then
        (mkTracker (grids self) (verbose self) (_has_run self) charge mass
           (nparticles self) (x self) (v self) (field_weighting self)
           (nparticles_tracked self) (dt self) (on_grid self)
           (entered_grid self),
         Raise ValueError)
      else
        (mkTracker (grids self) (verbose self) (_has_run self) charge mass
           (length pos) (Some pos) vel (field_weighting self)
           (nparticles_tracked self) (dt self) (on_grid self)
           (entered_grid self),
         Ok tt)
  end.

(** [vmax]: the largest speed over all the particles. *)
Definition vmax (self : ParticleTracker) : result float :=
  np_max (map norm (v self)).

(** [gridstep = 0.5 * (ds / self.vmax)], one entry per grid. *)
Definition gridstep (self : ParticleTracker) : result (list float) :=
  vm <- vmax self ;;
  Ok (map (fun grid => F64.mul F64.half (F64.div (Grid.grid_resolution grid) vm))
        (grids self)).

(** [self.on_grid[p, i] > 0] *)
Definition on_grid_at (self : ParticleTracker) (p i : nat) : bool :=
  nth i (nth p (on_grid self) []) false.

(** The columns [0 .. num_grids-1] of [candidates] after the loop over the
    grids, as the row of particle [p]:
    [np.where(self.on_grid[:, i] > 0, gridstep[i], np.inf)].  [_push] stores
    an [N, num_grids] mask in [on_grid] before it calls [_adaptive_dt]. *)
Definition grid_candidates (self : ParticleTracker) (gs : list float)
    (p : nat) : list float :=
  map (fun i => if on_grid_at self p i then nth i gs F64.inf else F64.inf)
    (seq 0 (num_grids self)).

(** [np.max(np.sqrt(Bx**2 + By**2 + Bz**2))] *)
Definition Bmag (F : list fields) : result float :=
  np_max (map (fun f => norm (Bx f, By f, Bz f)) F).

Definition gyroperiod (self : ParticleTracker) (bmag : float) : float :=
  if F64.eqb bmag F64.zero then F64.inf
  else F64.div (F64.mul (F64.mul F64.two F64.pi) (m self))
         (F64.mul (q self) bmag).

(** The whole row of particle [p] in [candidates]: one column per grid and
    the last column, [gyroperiod / 12]. *)
Definition candidates (self : ParticleTracker) (gs : list float)
    (gyro : float) (p : nat) : list float :=
  grid_candidates self gs p ++ [F64.div gyro F64.twelve].

Definition _adaptive_dt (self : ParticleTracker) (F : list fields)
  : result (list float) :=
  if length (dt self) =? 1 then Ok (dt self)
  else
    gs <- gridstep self ;;
    bmag <- Bmag F ;;
    let gyro := gyroperiod self bmag in
    dt_min <- nth_error_or_raise (dt self) 0 ;;
    dt_max <- nth_error_or_raise (dt self) 1 ;;
    mins <- mapM (fun p =>
                    np_min (map (fun c => np_clip c dt_min dt_max)
                              (candidates self gs gyro p)))
                 (seq 0 (nparticles_tracked self)) ;;
    largest <- np_max gs ;;
    Ok (map (fun d => if F64.eqb d F64.inf then largest else d) mins).

(** *** The push loop *)

Definition zero_fields : fields :=
  mkFields F64.zero F64.zero F64.zero F64.zero F64.zero F64.zero.

(** [np.nan_to_num] on each of [_Ex, _Ey, _Ez, _Bx, _By, _Bz]. *)
Definition fields_nan_to_num (f : fields) : fields :=
  mkFields (nan_to_num (Ex f)) (nan_to_num (Ey f)) (nan_to_num (Ez f))
    (nan_to_num (Bx f)) (nan_to_num (By f)) (nan_to_num (Bz f)).

(** [Ex += _Ex] and the five others. *)
Definition add_fields (tot c : fields) : fields :=
  mkFields (F64.add (Ex tot) (Ex c)) (F64.add (Ey tot) (Ey c))
    (F64.add (Ez tot) (Ez c)) (F64.add (Bx tot) (Bx c))
    (F64.add (By tot) (By c)) (F64.add (Bz tot) (Bz c)).

(** The interpolation of one grid at all positions.  With a weighting that
    is neither of the two names no branch binds [_Ex], which Python
    reports at the first use of the name. *)
Definition interpolate (weighting : string) (grid : AbstractGrid)
    (pos : list vec3) : result (list fields) :=
  if String.eqb weighting "volume averaged" then
    Ok (map (Grid.volume_averaged_interpolator grid) pos)
  else if String.eqb weighting "nearest neighbor" then
    Ok (map (Grid.nearest_neighbor_interpolator grid) pos)
  else Raise NameError.

(** What one grid adds to the totals. *)
Definition contribution (weighting : string) (grid : AbstractGrid)
    (pos : list vec3) : result (list fields) :=
  raw <- interpolate weighting grid pos ;;
  Ok (map fields_nan_to_num raw).

(** [for grid in self.grids: ...] on the running totals. *)
Fixpoint sum_fields (weighting : string) (gs : list AbstractGrid)
    (pos : list vec3) (tot : list fields) : result (list fields) :=
  match gs with
  | [] => Ok tot
  | grid :: gs' =>
      c <- contribution weighting grid pos ;;
      sum_fields weighting gs' pos (zip_with add_fields tot c)
  end.

(** The [dt] that broadcasting gives particle [p]: the only entry of a
    one-element array, else entry [p]. *)
Definition dt_of (dts : list float) (p : nat) : float :=
  match dts with
  | [d] => d
  | _ => nth p dts F64.nan
  end.

Fixpoint push_all `{Integrator} (pos vel : list vec3) (F : list fields)
    (charge mass : float) (dts : list float) (p : nat)
  : list vec3 * list vec3 :=
  match pos, vel, F with
  | xp :: pos', vp :: vel', f :: F' =>
      let '(xp', vp') :=
        boris_push xp vp (Bx f, By f, Bz f) (Ex f, Ey f, Ez f)
          charge mass (dt_of dts p) in
      let '(xs, vs) := push_all pos' vel' F' charge mass dts (S p) in
      (xp' :: xs, vp' :: vs)
  | _, _, _ => ([], [])
  end.

(** [_push()].  [on] is the mask [np.array([grid.on_grid(pos) for grid in
    self.grids]).T], one row per particle and one column per grid, and
    [map count_true on] its row sums [np.sum(self.on_grid, axis=-1)].  With
    no grid at all the array of the source is the empty one-dimensional
    array and its sum the scalar zero, which leaves [entered_grid] as it is;
    here the mask then is one empty row per particle, whose row sums are
    the same zeros, so the mask and [on_any_grid] stand for those of the
    source only on a tracker with at least one grid. *)
Definition _push `{Integrator} (self : ParticleTracker)
  : result ParticleTracker :=
  match x self with
  | None => Raise AttributeError
  | Some pos =>
      let on := map (fun p => map (fun grid => Grid.on_grid grid p) (grids self))
                  pos in
      let entered := zip_with N.add (entered_grid self) (map count_true on) in
      let self1 :=
        mkTracker (grids self) (verbose self) (_has_run self) (q self)
          (m self) (nparticles self) (x self) (v self) (field_weighting self)
          (nparticles_tracked self) (dt self) on entered in
      F <- sum_fields (field_weighting self) (grids self) pos
             (repeat zero_fields (nparticles_tracked self)) ;;
      dts <- _adaptive_dt self1 F ;;
      let '(pos', vel') := push_all pos (v self) F (q self) (m self) dts 0 in
      Ok (mkTracker (grids self) (verbose self) (_has_run self) (q self)
            (m self) (nparticles self) (Some pos') vel' (field_weighting self)
            (nparticles_tracked self) (dt self) on entered)
  end.

(** [on_any_grid]: [np.sum(self.on_grid, axis=-1) > 0]. *)
Definition on_any_grid (self : ParticleTracker) : list bool :=
  map (fun row => (0 <? count_true row)%N) (on_grid self).

(** The static method [_stop_condition]. *)
Definition _stop_condition (_ : unit) : bool := false.

Definition field_weightings : list string :=
  ["volume averaged"; "nearest neighbor"]%string.

Definition _validate_inputs (self : ParticleTracker) (weighting : string)
  : result ParticleTracker :=
  if existsb (String.eqb weighting) field_weightings then
    match x self with
    | None => Raise ValueError
    | Some _ =>
        Ok (mkTracker (grids self) (verbose self) (_has_run self) (q self)
              (m self) (nparticles self) (x self) (v self) weighting
              (nparticles_tracked self) (dt self) (on_grid self)
              (entered_grid self))
    end
  else Raise ValueError.

(** How a call of [run] stands after a number of passes of its [while]
    loop: it has returned, it has raised, or the loop is still going. *)
Inductive outcome : Type :=
| Returned (self : ParticleTracker)
| Raised (e : exn)
| Running (self : ParticleTracker).

(** [while not self._stop_condition(): ... self._push()], [fuel] passes at
    most.  The progress meter shows [np.sum(self.on_any_grid)] and changes
    nothing. *)
Fixpoint run_loop `{Integrator} (fuel : nat) (self : ParticleTracker)
  : outcome :=
  if _stop_condition tt then Returned self
  else
    match fuel with
    | 0 => Running self
    | S fuel' =>
        match _push self with
        | Raise e => Raised e
        | Ok self' => run_loop fuel' self'
        end
    end.

(** The part of [run(dt, field_weighting)] before the loop; [dt] is [None]
    or the array given. *)
Definition run_setup (self : ParticleTracker) (dt_arg : option (list float))
    (weighting : string) : result ParticleTracker :=
  self1 <- _validate_inputs self weighting ;;
  match x self1 with
  | None => Raise AttributeError
  | Some pos =>
      let n := length pos in
      let dts := match dt_arg with
                 | None => [F64.zero; F64.inf]
                 | Some d => d
                 end in
      Ok (mkTracker (grids self1) (verbose self1) (_has_run self1) (q self1)
            (m self1) (nparticles self1) (x self1) (v self1)
            (field_weighting self1) n dts
            (repeat (repeat false (num_grids self1)) n) (repeat 0%N n))
  end.

(** [run(dt, field_weighting)] *)
Definition run `{Integrator} (fuel : nat) (self : ParticleTracker)
    (dt_arg : option (list float)) (weighting : string) : outcome :=
  match run_setup self dt_arg weighting with
  | Raise e => Raised e
  | Ok self2 =>
      match run_loop fuel self2 with
      | Returned s =>
          Returned
            (mkTracker (grids s) (verbose s) true (q s) (m s)
               (nparticles s) (x s) (v s) (field_weighting s)
               (nparticles_tracked s) (dt s) (on_grid s)
               (entered_grid s))
      | o => o
      end
  end.

(** The state after [k] passes of the loop body, while none of them raises. *)
Fixpoint pushes `{Integrator} (k : nat) (self : ParticleTracker)
  : result ParticleTracker :=
  match k with
  | 0 => Ok self
  | S k' => self' <- pushes k' self ;; _push self'
  end.

(** ** Operations that [particle_tracker.py] does not define *)

(** Writes NaN in the rows of an [N,3] array that the mask selects. *)
Definition nan_vec : vec3 := (F64.nan, F64.nan, F64.nan).

Definition set_nan (mask : list bool) (rows : list vec3) : list vec3 :=
  zip_with (fun (b : bool) w => if b then nan_vec else w) mask rows.

(** Modelled from the spec: [stop_particles(mask)] is called by the tests
    but is not defined in [particle_tracker.py].  The mask length must equal
    the particle count N ([ValueError] otherwise); the velocity of the
    masked particles becomes NaN and their position is kept. *)
Definition stop_particles (self : ParticleTracker) (mask : list bool)
  : result ParticleTracker :=
  match x self with
  | None => Raise AttributeError
  | Some pos =>
      if negb (length mask =? length pos) then Raise ValueError
      else
        Ok (mkTracker (grids self) (verbose self) (_has_run self) (q self)
              (m self) (nparticles self) (x self) (set_nan mask (v self))
              (field_weighting self) (nparticles_tracked self) (dt self)
              (on_grid self) (entered_grid self))
  end.

(** Modelled from the spec: [remove_particles(mask)] is called by the tests
    but is not defined in [particle_tracker.py].  Same check on the mask;
    the position of the masked particles becomes NaN as well as their
    velocity. *)
Definition remove_particles (self : ParticleTracker) (mask : list bool)
  : result ParticleTracker :=
  match x self with
  | None => Raise AttributeError
  | Some pos =>
      if negb (length mask =? length pos) then Raise ValueError
      else
        Ok (mkTracker (grids self) (verbose self) (_has_run self) (q self)
              (m self) (nparticles self) (Some (set_nan mask pos))
              (set_nan mask (v self)) (field_weighting self)
              (nparticles_tracked self) (dt self) (on_grid self)
              (entered_grid self))
  end.

(** Modelled from the spec: the [NoParticlesOnGrids] termination condition,
    which [particle_tracker.py] does not define: no particle is on any grid
    now and at least one particle has entered a grid. *)
Definition no_particles_on_grids (self : ParticleTracker) : bool :=
  negb (existsb (fun b => b) (on_any_grid self))
  && existsb (fun n => (0 <? n)%N) (entered_grid self).

(** The six components of the fields at one particle. *)
Definition components (f : fields) : list float :=
  [Ex f; Ey f; Ez f; Bx f; By f; Bz f].

(** ** Objects to run the definitions on *)

Module Fixtures.

Definition f (z : Z) : float := F64.of_Z z.

(** With E = 0 and B = 0 a Boris step leaves the velocity as it is and
    moves the particle by [v * dt]. *)
Definition free_streaming (xp vp B E : vec3) (charge mass d : float)
  : vec3 * vec3 :=
  let '(x1, x2, x3) := xp in
  let '(v1, v2, v3) := vp in
  ((F64.add x1 (F64.mul v1 d), F64.add x2 (F64.mul v2 d),
    F64.add x3 (F64.mul v3 d)), vp).

#[local] Instance field_free : Integrator := {| boris_push := free_streaming |}.

Definition in_box (half_width : float) (p : vec3) : bool :=
  let '(a, b, c) := p in
  F64.leb (F64.abs a) half_width && F64.leb (F64.abs b) half_width
  && F64.leb (F64.abs c) half_width.

Definition nan_fields : fields :=
  mkFields F64.nan F64.nan F64.nan F64.nan F64.nan F64.nan.

(** A cubic grid around the origin that holds the given quantities,
    interpolates [here] inside and NaN outside, and fills nothing in. *)
Definition box (half_width ds : float) (table : list (string * array3))
    (here : fields) : AbstractGrid :=
  Grid.mkGrid table [("E_x", "V / m"); ("B_z", "T")]%string ds
    (in_box half_width)
    (fun p => if in_box half_width p then here else nan_fields)
    (fun p => if in_box half_width p then here else nan_fields)
    (fun _ _ => Ok table).

(** A 2 x 2 x 2 array filled with one value. *)
Definition full (a : float) : array3 :=
  repeat (repeat (repeat a 2) 2) 2.

(** A 3 x 3 x 3 array, [centre] in the middle and [edge] elsewhere. *)
Definition shell (edge centre : float) : array3 :=
  [ repeat (repeat edge 3) 3;
    [repeat edge 3; [edge; centre; edge]; repeat edge 3];
    repeat (repeat edge 3) 3 ].

Definition origin : vec3 := (F64.zero, F64.zero, F64.zero).
Definition along_x (a : float) : vec3 := (a, F64.zero, F64.zero).

Definition empty_grid : AbstractGrid :=
  box F64.one F64.one [] zero_fields.

(** A grid whose [E_x] is 1 V/m at the centre and 0 at the edges, and
    whose [B_z] is 1 T everywhere. *)
Definition charged_grid : AbstractGrid :=
  box F64.one F64.one
    [("E_x", shell F64.zero F64.one); ("B_z", full F64.one)]%string
    zero_fields.

(** A grid with a NaN in [E_x], as in the tests. *)
Definition grid_with_inf_entry : AbstractGrid :=
  box F64.one F64.one [("E_x", full F64.nan)]%string zero_fields.

(** A grid that holds a quantity of its user's own, under a key that is
    not in the table of recognized keys: 1 everywhere, the edges
    included. *)
Definition custom_grid : AbstractGrid :=
  box F64.one F64.one [("vorticity", full F64.one)]%string zero_fields.

(** A grid whose [E_x] is infinite where the particle is. *)
Definition infinite_Ex : fields :=
  mkFields F64.inf F64.zero F64.zero F64.zero F64.zero F64.zero.

Definition overflowing_grid : AbstractGrid :=
  box F64.one F64.one [] infinite_Ex.

(** The same cube with a resolution of 2 m. *)
Definition coarse_grid : AbstractGrid :=
  box F64.one F64.two [] zero_fields.

(** [0.25] *)
Definition quarter : float := F64.mul F64.half F64.half.

(** A tracker in the middle of a run with [dt] left at its default: the
    grids, the velocities and the [on_grid] mask are given, every
    particle is at the origin. *)
Definition mid_run (gs : list AbstractGrid) (vel : list vec3)
    (mask : list (list bool)) : ParticleTracker :=
  mkTracker gs true false F64.one F64.one (length vel)
    (Some (map (fun _ => origin) vel)) vel "volume averaged" (length vel)
    [F64.zero; F64.inf] mask (map count_true mask).

(** Two particles on one grid, one twice as fast as the other. *)
Definition slow_and_fast : ParticleTracker :=
  mid_run [empty_grid] [along_x F64.one; along_x F64.two] [[true]; [true]].

(** Two grids and two particles: the first particle is on the first grid
    only and the second particle, at rest, is on no grid. *)
Definition one_off_grid : ParticleTracker :=
  mid_run [empty_grid; coarse_grid] [along_x F64.one; origin]
    [[true; false]; [false; false]].

(** Particles at rest on a grid. *)
Definition at_rest : ParticleTracker :=
  mid_run [empty_grid] [origin; origin] [[true]; [true]].

(** A tracker on one grid with one particle at the origin. *)
Definition tracker (latch : bool) (vel : vec3) : ParticleTracker :=
  mkTracker [empty_grid] true latch F64.one F64.one 1 (Some [origin]) [vel]
    "" 0 [] [] [].

End Fixtures.

(** What a predicate on the tracker says in the middle of a call of [run]
    whose loop is still going. *)
Definition running_with (P : ParticleTracker -> bool) (o : outcome) : bool :=
  match o with
  | Running s => P s
  | Returned _ | Raised _ => false
  end.

Definition finite_vec (w : vec3) : bool :=
  let '(a, b, c) := w in
  F64.isfinite a && F64.isfinite b && F64.isfinite c.

Definition nan_vec_b (w : vec3) : bool :=
  let '(a, b, c) := w in F64.isnan a && F64.isnan b && F64.isnan c.

(** No component is NaN; every component is finite. *)
Definition no_nan (f : fields) : bool :=
  forallb (fun a => negb (F64.isnan a)) (components f).

Definition all_finite (f : fields) : bool :=
  forallb F64.isfinite (components f).

(** ** The order of the binary64 numbers

    The comparison of [SpecFloat] orders the values that are not NaN by
    sign, then exponent, then mantissa; [rank] places a value in that
    order. *)

Definition rank (a : float) : Z * Z * Z :=
  match a with
  | S754_infinity true => (-2, 0, 0)%Z
  | S754_finite true mz e => (-1, - e, Zneg mz)%Z
  | S754_zero _ | S754_nan => (0, 0, 0)%Z
  | S754_finite false mz e => (1, e, Zpos mz)%Z
  | S754_infinity false => (2, 0, 0)%Z
  end.

Definition lex_le (r r' : Z * Z * Z) : Prop :=
  let '(a, b, c) := r in
  let '(a', b', c') := r' in
  (a < a' \/ (a = a' /\ (b < b' \/ (b = b' /\ c <= c'))))%Z.

(** [a <= b] for two numbers. *)
Definition fle (a b : float) : Prop := lex_le (rank a) (rank b).

(** The grid-resolution candidate in the words of the specification: half
    the resolution of the grid divided by the speed of the particle
    itself. *)
Definition own_speed_candidate (grid : AbstractGrid) (vel : vec3) : float :=
  F64.mul F64.half (F64.div (Grid.grid_resolution grid) (norm vel)).

(** The fallback in the words of the specification: the largest finite
    grid-resolution candidate over all the particles, that is over the
    grid columns of every row of [candidates]. *)
Definition largest_finite_candidate (rows : list (list float))
  : result float :=
  np_max (filter F64.isfinite (concat rows)).

(** Every component is a zero, of either sign. *)
Definition zero_vec (w : vec3) : bool :=
  let '(a, b, c) := w in F64.is_zero a && F64.is_zero b && F64.is_zero c.

(** A finite number above zero. *)
Definition positive_finite (a : float) : bool :=
  match a with
  | S754_finite false _ _ => true
  | _ => false
  end.

(** [np.abs(grid[rq]).value] *)
Definition abs3 (values : array3) : array3 := map (map (map F64.abs)) values.

(** Every axis of the array has at least one index. *)
Definition well_shaped (arr : array3) : bool :=
  (0 <? length arr)
  && forallb (fun plane =>
                (0 <? length plane)
                && forallb (fun row : list float => 0 <? length row) plane)
       arr.

(** The warnings that a pass of the loop body has emitted. *)
Definition emitted (c : result (list RuntimeWarning)) : list RuntimeWarning :=
  match c with
  | Ok ws => ws
  | Raise _ => []
  end.

(** The entry [arr[i, j, k]]. *)
Definition entry (arr : array3) (i j k : nat) : float :=
  nth k (nth j (nth i arr []) []) F64.nan.

(** The array has the shape [(n0, n1, n2)]. *)
Definition has_shape (arr : array3) (n0 n1 n2 : nat) : Prop :=
  length arr = n0
  /\ forall plane, In plane arr ->
       length plane = n1 /\ forall row, In row plane -> length row = n2.

(** The index [(i, j, k)] lies on one of the six faces of the array. *)
Definition on_boundary (n0 n1 n2 i j k : nat) : Prop :=
  i = 0 \/ S i = n0 \/ j = 0 \/ S j = n1 \/ k = 0 \/ S k = n2.

(** The shape test, for arrays that are written out. *)
Definition shape_ok (arr : array3) (n0 n1 n2 : nat) : bool :=
  (length arr =? n0)
  && forallb (fun plane =>
                (length plane =? n1)
                && forallb (fun row : list float => length row =? n2) plane)
       arr.

(** ** Predicates of the statements *)

(** The computation does not raise [e0]. *)
Definition never_raises {A : Type} (e0 : exn) (c : result A) : Prop :=
  c <> Raise e0.

(** No entry of the array is NaN. *)
Definition numbers (l : list float) : Prop :=
  forall a, In a l -> F64.isnan a = false.

(** The tracker in the middle of a run on [n] particles. *)
Definition tracking (n : nat) (s : ParticleTracker) : Prop :=
  exists pos, x s = Some pos /\ length pos = n /\ length (v s) = n
              /\ length (entered_grid s) = n /\ nparticles_tracked s = n.

(** A pass over one required quantity ends normally or with
    [ValueError]. *)
Definition passes_or_rejects (grid : AbstractGrid) (rq : string) : Prop :=
  (exists ws, check_quantity grid rq = Ok ws)
  \/ check_quantity grid rq = Raise ValueError.

(** The faces that [faces] returns for an array with no empty axis. *)
Definition six_faces (arr : array3) : list (list (list float)) :=
  [hd [] arr; last arr [];
   map (hd []) arr; map (fun plane => last plane []) arr;
   map (map (hd F64.nan)) arr;
   map (map (fun row => last row F64.nan)) arr].

(** ** Predicates and objects of the further statements *)

(** The value is a number of the given sign bit: a zero, a finite number or
    an infinity. *)
Definition signed (s : bool) (a : float) : bool :=
  match a with
  | S754_zero s' | S754_finite s' _ _ | S754_infinity s' => Bool.eqb s s'
  | S754_nan => false
  end.

(** A finite number below zero. *)
Definition negative_finite (a : float) : bool :=
  match a with
  | S754_finite true _ _ => true
  | _ => false
  end.

(** Some component is NaN. *)
Definition nan_in_vec (w : vec3) : bool :=
  let '(a, b, c) := w in F64.isnan a || F64.isnan b || F64.isnan c.

(** Every component is NaN: what the interpolators give off the grid. *)
Definition all_nan (f : fields) : bool := forallb F64.isnan (components f).

(** The array that [run] stores in [self.dt]. *)
Definition resolved_dt (dt_arg : option (list float)) : list float :=
  match dt_arg with
  | None => [F64.zero; F64.inf]
  | Some d => d
  end.

(** What a pass of the loop leaves as it is. *)
Definition same_setup (s s' : ParticleTracker) : Prop :=
  grids s' = grids s /\ verbose s' = verbose s /\ _has_run s' = _has_run s
  /\ q s' = q s /\ m s' = m s /\ nparticles s' = nparticles s
  /\ field_weighting s' = field_weighting s
  /\ nparticles_tracked s' = nparticles_tracked s /\ dt s' = dt s.

Module Cases.

(** An electron-like species on one grid: charge -1 C, mass 1 kg, one
    particle moving at 1 m/s, [dt] left at its default. *)
Definition negative_charge : ParticleTracker :=
  mkTracker [Fixtures.empty_grid] true false (F64.of_Z (-1)) F64.one 1
    (Some [Fixtures.origin]) [Fixtures.along_x F64.one] "volume averaged" 1
    [F64.zero; F64.inf] [[true]] [1%N].

(** A field of 1 T along z at one particle. *)
Definition unit_Bz : fields :=
  mkFields F64.zero F64.zero F64.zero F64.zero F64.zero F64.one.

(** Two particles on one grid, the second one stopped: its velocity is
    NaN. *)
Definition one_stopped : ParticleTracker :=
  Fixtures.mid_run [Fixtures.empty_grid] [Fixtures.along_x F64.one; nan_vec]
    [[true]; [true]].

(** One particle at 1 m/s on one grid, in the middle of a run with [dt]
    between 0.25 s and 0.5 s. *)
Definition ranged : ParticleTracker :=
  mkTracker [Fixtures.coarse_grid] true false F64.one F64.one 1
    (Some [Fixtures.origin]) [Fixtures.along_x F64.one] "volume averaged" 1
    [Fixtures.quarter; F64.half] [[true]] [1%N].

(** A grid that holds a NaN and is constructed with nothing required. *)
Definition unchecked_grid : AbstractGrid := Fixtures.grid_with_inf_entry.

(** A tracker with one loaded particle and no grid at all. *)
Definition no_grid : ParticleTracker :=
  mkTracker [] true false F64.one F64.one 1 (Some [Fixtures.origin])
    [Fixtures.along_x F64.one] "" 0 [] [] [].

(** One particle at 1 m/s on one grid, set up for a run with a forced [dt]
    of 1 s. *)
Definition forced : ParticleTracker :=
  mkTracker [Fixtures.empty_grid] true false F64.one F64.one 1
    (Some [Fixtures.origin]) [Fixtures.along_x F64.one] "volume averaged" 1
    [F64.one] [[false]] [0%N].

(** A grid that one position is outside of. *)
Definition far_away : vec3 := Fixtures.along_x (F64.of_Z 5).

End Cases.

(** * Properties *)

Unset Implicit Arguments.

(** ** The constants *)

Example half_of_two : F64.mul F64.two F64.half = F64.one.
Proof. reflexivity. Qed.

Example milli_is_a_thousandth : F64.div F64.one (F64.of_Z 1000) = F64.milli.
Proof. reflexivity. Qed.

Example quarter_is_a_fourth :
  F64.div F64.one (F64.of_Z 4) = Fixtures.quarter.
Proof. reflexivity. Qed.

Example max_float_is_finite :
  F64.max_float = S754_finite false 9007199254740991 971.
Proof. reflexivity. Qed.

(** ** Exceptions that a computation cannot raise *)

Lemma never_raises_ok {A : Type} (e0 : exn) (a : A) : never_raises e0 (Ok a).
Proof. discriminate. Qed.

Lemma never_raises_other {A : Type} (e0 e : exn) :
  e <> e0 -> never_raises e0 (@Raise A e).
Proof. intros Hne Heq. injection Heq as ->. now apply Hne. Qed.

Lemma never_raises_bind {A B : Type} (e0 : exn) (c : result A)
    (k : A -> result B) :
  never_raises e0 c -> (forall a, never_raises e0 (k a)) ->
  never_raises e0 (a <- c ;; k a).
Proof.
  intros Hc Hk. destruct c as [a|e]; simpl.
  - apply Hk.
  - intros Heq. injection Heq as ->. now apply Hc.
Qed.

Lemma never_raises_mapM {A B : Type} (e0 : exn) (f : A -> result B)
    (l : list A) :
  (forall a, never_raises e0 (f a)) -> never_raises e0 (mapM f l).
Proof.
  intros Hf. induction l as [|a l IH]; simpl.
  - apply never_raises_ok.
  - apply never_raises_bind; [apply Hf|]. intros b.
    apply never_raises_bind; [apply IH|]. intros bs. apply never_raises_ok.
Qed.

Create HintDb raises.

#[local] Hint Resolve never_raises_ok never_raises_bind never_raises_mapM
  : raises.

Lemma np_max_no_RuntimeError l : never_raises RuntimeError (np_max l).
Proof. destruct l; [now apply never_raises_other | apply never_raises_ok]. Qed.

Lemma np_min_no_RuntimeError l : never_raises RuntimeError (np_min l).
Proof. destruct l; [now apply never_raises_other | apply never_raises_ok]. Qed.

Lemma index_no_RuntimeError {A : Type} (l : list A) i :
  never_raises RuntimeError (nth_error_or_raise l i).
Proof.
  unfold nth_error_or_raise. destruct (nth_error l i);
    [apply never_raises_ok | now apply never_raises_other].
Qed.

#[local] Hint Resolve np_max_no_RuntimeError np_min_no_RuntimeError
  index_no_RuntimeError : raises.

Lemma adaptive_dt_no_RuntimeError self F :
  never_raises RuntimeError (_adaptive_dt self F).
Proof.
  unfold _adaptive_dt, gridstep, vmax, Bmag.
  destruct (length (dt self) =? 1); [apply never_raises_ok|].
  repeat (apply never_raises_bind; [now auto with raises | intros ?]).
  apply never_raises_ok.
Qed.

Lemma sum_fields_no_RuntimeError w gs pos tot :
  never_raises RuntimeError (sum_fields w gs pos tot).
Proof.
  revert tot. induction gs as [|g gs IH]; intros tot; simpl.
  - apply never_raises_ok.
  - apply never_raises_bind; [|intros c; apply IH].
    unfold contribution, interpolate.
    destruct (String.eqb w "volume averaged"); simpl;
      [apply never_raises_ok|].
    destruct (String.eqb w "nearest neighbor"); simpl;
      [apply never_raises_ok | now apply never_raises_other].
Qed.

Section WithIntegrator.

Context `{Integrator}.

Lemma push_no_RuntimeError self : never_raises RuntimeError (_push self).
Proof.
  unfold _push. destruct (x self) as [pos|];
    [|now apply never_raises_other].
  apply never_raises_bind; [apply sum_fields_no_RuntimeError|]. intros F.
  apply never_raises_bind; [apply adaptive_dt_no_RuntimeError|]. intros dts.
  destruct (push_all _ _ _ _ _ _ _). apply never_raises_ok.
Qed.

Lemma run_loop_never_returns fuel self s :
  run_loop fuel self <> Returned s.
Proof.
  revert self. induction fuel as [|fuel IH]; intros self; simpl.
  - discriminate.
  - destruct (_push self); [apply IH | discriminate].
Qed.

Lemma run_loop_no_RuntimeError fuel self :
  run_loop fuel self <> Raised RuntimeError.
Proof.
  revert self. induction fuel as [|fuel IH]; intros self; simpl.
  - discriminate.
  - destruct (_push self) as [s|e] eqn:E; [apply IH|].
    intros Heq. injection Heq as ->.
    now apply (push_no_RuntimeError self).
Qed.

Lemma run_setup_no_RuntimeError self dt_arg w :
  never_raises RuntimeError (run_setup self dt_arg w).
Proof.
  unfold run_setup, _validate_inputs.
  destruct (existsb _ _); simpl; [|now apply never_raises_other].
  destruct (x self); simpl;
    [apply never_raises_ok | now apply never_raises_other].
Qed.

(** [run] has no check of the latch: whatever [_has_run] holds, a call
    never ends in a [RuntimeError]. *)
Lemma run_no_RuntimeError fuel self dt_arg w :
  run fuel self dt_arg w <> Raised RuntimeError.
Proof.
  unfold run. destruct (run_setup self dt_arg w) as [s2|e] eqn:E.
  - destruct (run_loop fuel s2) as [s|e|s] eqn:L; try discriminate.
    rewrite <- L. apply run_loop_no_RuntimeError.
  - intros Heq. injection Heq as ->.
    now apply (run_setup_no_RuntimeError self dt_arg w).
Qed.

End WithIntegrator.

(** ** The run loop *)

(** C1 (the code departs from the claim).  [_stop_condition] is the
    constant [False], so the [while] loop of [run] has no exit: whatever the
    tracker, the arguments and the number of passes, [run] has not returned.
    On one grid with one particle that starts at the origin and leaves the
    grid, five passes in, no particle is on any grid and one has entered a
    grid, which is when [NoParticlesOnGrids] says stop, and the loop is
    still going. *)
Theorem run_never_returns :
  (forall (I : Integrator) fuel self dt_arg weighting s,
      run fuel self dt_arg weighting <> Returned s)
  /\ running_with no_particles_on_grids
       (run (H := Fixtures.field_free) 5
          (Fixtures.tracker false (Fixtures.along_x F64.one))
          (Some [F64.one]) "volume averaged") = true.
Proof.
  split.
  - intros I fuel self dt_arg w s. unfold run.
    destruct (run_setup self dt_arg w) as [s2|e]; [|discriminate].
    destruct (run_loop fuel s2) as [s'|e|s'] eqn:L; try discriminate.
    exfalso. exact (run_loop_never_returns _ _ _ L).
  - vm_compute. reflexivity.
Qed.

(** ** The constructor without [req_quantities] *)

(** With no grid there is nothing to iterate over, and the constructor
    completes even with [req_quantities] left at [None]. *)
Lemma init_no_grid_no_req_quantities verbose :
  exists t, __init__ (GridIterable []) None verbose = ([], Ok t)
            /\ grids t = [] /\ _has_run t = false.
Proof. eexists. split; [reflexivity|]. now split. Qed.

(** C8.  When [req_quantities] is left at [None] and the call of
    [require_quantities] on the first grid returns normally, the
    constructor raises ([TypeError], from [for rq in req_quantities]) and
    builds no tracker: be the argument one grid or a collection that starts
    with that grid. *)
Theorem init_default_req_quantities_raises (arg : grids_arg)
    (grid grid' : AbstractGrid) (gs : list AbstractGrid) (verbose : bool)
    (Harg : arg = OneGrid grid \/ arg = GridIterable (grid :: gs))
    (Hreq : Grid.require_quantities grid None true = Ok grid') :
  __init__ arg None verbose = ([], Raise TypeError).
Proof.
  destruct Harg as [-> | ->]; unfold __init__; simpl; now rewrite Hreq.
Qed.

Lemma init_default_req_quantities_raises_witness :
  __init__ (OneGrid Fixtures.empty_grid) None true = ([], Raise TypeError).
Proof.
  apply (init_default_req_quantities_raises (OneGrid Fixtures.empty_grid)
           Fixtures.empty_grid Fixtures.empty_grid [] true).
  - left. reflexivity.
  - reflexivity.
Defined.

(** ** Stopping and removing particles *)

Lemma set_nan_all (rows : list vec3) :
  set_nan (repeat true (length rows)) rows = repeat nan_vec (length rows).
Proof.
  unfold set_nan.
  induction rows as [|w rows IH]; simpl; [reflexivity | now rewrite IH].
Qed.

Lemma set_nan_all_other (rows rows' : list vec3) :
  length rows' = length rows ->
  set_nan (repeat true (length rows)) rows' = repeat nan_vec (length rows).
Proof. intros <-. apply set_nan_all. Qed.

(** C5.  On a tracker with N loaded particles at finite positions, the mask
    of N times [True] makes [stop_particles] set every velocity component to
    NaN and keep the positions, which stay finite, and makes
    [remove_particles] set every position component to NaN too; a mask of
    any other length makes both fail with [ValueError]. *)
Theorem stop_and_remove_particles (self : ParticleTracker) (pos : list vec3)
    (Hx : x self = Some pos)
    (Hv : length (v self) = length pos)
    (Hfin : forallb finite_vec pos = true) :
  (exists s, stop_particles self (repeat true (length pos)) = Ok s
             /\ v s = repeat nan_vec (length pos)
             /\ forallb nan_vec_b (v s) = true
             /\ x s = Some pos
             /\ forallb finite_vec pos = true)
  /\ (exists s, remove_particles self (repeat true (length pos)) = Ok s
                /\ x s = Some (repeat nan_vec (length pos))
                /\ v s = repeat nan_vec (length pos))
  /\ (forall mask, length mask <> length pos ->
        stop_particles self mask = Raise ValueError
        /\ remove_particles self mask = Raise ValueError).
Proof.
  assert (Hnan : forall n, forallb nan_vec_b (repeat nan_vec n) = true).
  { induction n; simpl; auto. }
  repeat split.
  - unfold stop_particles. rewrite Hx, repeat_length, Nat.eqb_refl. simpl.
    eexists. split; [reflexivity|]. simpl.
    rewrite (set_nan_all_other _ _ Hv). repeat split; auto.
  - unfold remove_particles. rewrite Hx, repeat_length, Nat.eqb_refl. simpl.
    eexists. split; [reflexivity|]. simpl.
    rewrite (set_nan_all_other _ _ Hv), set_nan_all. now split.
  - unfold stop_particles. rewrite Hx.
    apply Nat.eqb_neq in H. now rewrite H.
  - unfold remove_particles. rewrite Hx.
    apply Nat.eqb_neq in H. now rewrite H.
Qed.

Lemma stop_and_remove_particles_witness :
  (exists s, stop_particles (Fixtures.tracker true Fixtures.origin) [true]
             = Ok s
             /\ v s = [nan_vec] /\ x s = Some [Fixtures.origin])
  /\ stop_particles (Fixtures.tracker true Fixtures.origin) [true; true]
     = Raise ValueError
  /\ remove_particles (Fixtures.tracker true Fixtures.origin) [true; true]
     = Raise ValueError.
Proof.
  destruct (stop_and_remove_particles
              (Fixtures.tracker true Fixtures.origin)
              [Fixtures.origin] eq_refl eq_refl eq_refl)
    as [[s [Hs [Hvs [_ [Hxs _]]]]] [_ Hmask]].
  split.
  - exists s. repeat split; assumption.
  - apply (Hmask [true; true]). simpl. lia.
Defined.

(** ** The [entered_grid] counters *)

Lemma zip_with_length {A B C : Type} (f : A -> B -> C) l l' :
  length l' = length l -> length (zip_with f l l') = length l.
Proof.
  revert l'. induction l as [|a l IH]; intros [|b l'] Hlen; simpl in *;
    try discriminate; auto.
Qed.

Lemma nth_zip_with_add (a b : list N) i :
  length b = length a ->
  nth i (zip_with N.add a b) 0%N = (nth i a 0 + nth i b 0)%N.
Proof.
  revert b i. induction a as [|n a IH]; intros [|k b] i Hlen; simpl in *;
    try discriminate.
  - now destruct i.
  - destruct i; [reflexivity|]. apply IH. now injection Hlen.
Qed.

Lemma sum_fields_length w gs pos tot F :
  sum_fields w gs pos tot = Ok F -> length tot = length pos ->
  length F = length pos.
Proof.
  revert tot. induction gs as [|g gs IH]; intros tot; simpl.
  - intros [= <-]. auto.
  - unfold contribution, interpolate.
    destruct (String.eqb w "volume averaged"); simpl.
    + intros HF Hlen. apply (IH _ HF).
      rewrite zip_with_length; rewrite ?length_map; auto.
    + destruct (String.eqb w "nearest neighbor"); simpl; [|discriminate].
      intros HF Hlen. apply (IH _ HF).
      rewrite zip_with_length; rewrite ?length_map; auto.
Qed.

Lemma nth_map_of_nth_error {A B : Type} (g : A -> B) l i a d :
  nth_error l i = Some a -> nth i (map g l) d = g a.
Proof.
  revert i. induction l as [|b l IH]; intros [|i]; simpl; try discriminate.
  - now intros [= ->].
  - apply IH.
Qed.

Section EnteredGrid.

Context `{Integrator}.

Lemma push_all_length pos vel F charge mass dts p xs vs :
  push_all pos vel F charge mass dts p = (xs, vs) ->
  length vel = length pos -> length F = length pos ->
  length xs = length pos /\ length vs = length pos.
Proof.
  revert vel F p xs vs.
  induction pos as [|xp pos IH]; intros [|vp vel] [|f F] p xs vs;
    simpl; try discriminate; try (intros [= <- <-]; auto; fail).
  destruct (boris_push _ _ _ _ _ _ _) as [xp' vp'].
  destruct (push_all pos vel F charge mass dts (S p)) as [xs' vs'] eqn:E.
  intros [= <- <-] Hv HF. simpl.
  destruct (IH vel F (S p) xs' vs' E) as [-> ->]; auto.
Qed.

Lemma push_step n s s' :
  tracking n s -> _push s = Ok s' ->
  tracking n s'
  /\ length (on_grid s') = n
  /\ entered_grid s'
     = zip_with N.add (entered_grid s) (map count_true (on_grid s')).
Proof.
  intros (pos & Hx & Hpos & Hv & He & Hn). unfold _push. rewrite Hx.
  destruct (sum_fields _ _ _ _) as [F|] eqn:EF; simpl; [|discriminate].
  destruct (_adaptive_dt _ F) as [dts|]; simpl; [|discriminate].
  destruct (push_all _ _ _ _ _ _ _) as [xs vs] eqn:EP.
  intros [= <-]. simpl.
  assert (HF : length F = length pos).
  { apply (sum_fields_length _ _ _ _ _ EF).
    now rewrite repeat_length, Hn, Hpos. }
  destruct (push_all_length _ _ _ _ _ _ _ _ _ EP) as [Hxs Hvs];
    [congruence | assumption |].
  split; [|split].
  - exists xs. simpl. repeat split; try congruence.
    rewrite zip_with_length; rewrite ?length_map; congruence.
  - now rewrite length_map.
  - reflexivity.
Qed.

Lemma push_same_setup s s' : _push s = Ok s' -> same_setup s s'.
Proof.
  unfold _push. destruct (x s) as [pos|]; [|discriminate].
  destruct (sum_fields _ _ _ _) as [F|]; simpl; [|discriminate].
  destruct (_adaptive_dt _ F) as [dts|]; simpl; [|discriminate].
  destruct (push_all _ _ _ _ _ _ _) as [xs vs].
  intros [= <-]. unfold same_setup. simpl. now repeat split.
Qed.

Lemma same_setup_trans s s' s'' :
  same_setup s s' -> same_setup s' s'' -> same_setup s s''.
Proof. unfold same_setup. intuition congruence. Qed.

Lemma push_on_grid s s' pos :
  _push s = Ok s' -> x s = Some pos ->
  on_grid s'
  = map (fun p => map (fun grid => Grid.on_grid grid p) (grids s)) pos.
Proof.
  unfold _push. intros Hp Hx. rewrite Hx in Hp.
  destruct (sum_fields _ _ _ _) as [F|]; simpl in Hp; [|discriminate].
  destruct (_adaptive_dt _ F) as [dts|]; simpl in Hp; [|discriminate].
  destruct (push_all _ _ _ _ _ _ _) as [xs vs].
  now injection Hp as <-.
Qed.

Lemma pushes_tracking n s0 k sk :
  tracking n s0 -> pushes k s0 = Ok sk -> tracking n sk.
Proof.
  intros H0. revert sk. induction k as [|k IH]; simpl; intros sk.
  - now intros [= <-].
  - destruct (pushes k s0) as [s|]; simpl; [|discriminate].
    intros Hp. exact (proj1 (push_step _ _ _ (IH _ eq_refl) Hp)).
Qed.

End EnteredGrid.

Section EnteredGridCounts.

Context `{Integrator}.

Lemma nth_count_true (og : list (list bool)) i :
  nth i (map count_true og) 0%N = count_true (nth i og []).
Proof. change 0%N with (count_true []). apply map_nth. Qed.

(** The sum of a row of the mask is the number of grids that hold the
    position. *)
Lemma count_true_grids (gs : list AbstractGrid) (p : vec3) :
  count_true (map (fun grid => Grid.on_grid grid p) gs)
  = N.of_nat (length (filter (fun grid => Grid.on_grid grid p) gs)).
Proof.
  unfold count_true. f_equal.
  induction gs as [|g gs IH]; simpl; [reflexivity|].
  destruct (Grid.on_grid g p); simpl; now rewrite IH.
Qed.

Lemma no_grid_holds (gs : list AbstractGrid) (p : vec3) :
  N.of_nat (length (filter (fun grid => Grid.on_grid grid p) gs)) = 0%N
  <-> (forall grid, In grid gs -> Grid.on_grid grid p = false).
Proof.
  induction gs as [|g gs IH]; simpl.
  - split; [intros _ grid [] | reflexivity].
  - destruct (Grid.on_grid g p) eqn:E; simpl.
    + split; [lia|]. intros Hall.
      specialize (Hall g (or_introl eq_refl)). congruence.
    + rewrite IH. split.
      * intros Hall grid [<- | Hin]; [exact E | now apply Hall].
      * intros Hall grid Hin. apply Hall. now right.
Qed.

Lemma pushes_same_setup s0 k sk : pushes k s0 = Ok sk -> same_setup s0 sk.
Proof.
  revert sk. induction k as [|k IH]; simpl; intros sk.
  - intros [= <-]. unfold same_setup. now repeat split.
  - destruct (pushes k s0) as [s|]; simpl; [|discriminate].
    intros Hp.
    exact (same_setup_trans _ _ _ (IH _ eq_refl) (push_same_setup _ _ Hp)).
Qed.

(** One pass adds to the entry of particle [i] the number of grids that
    hold the position the particle has when the pass begins. *)
Lemma entered_grid_step n sk s' posk i p :
  tracking n sk -> _push sk = Ok s' ->
  x sk = Some posk -> nth_error posk i = Some p ->
  nth i (entered_grid s') 0%N
  = (nth i (entered_grid sk) 0
     + N.of_nat (length (filter (fun grid => Grid.on_grid grid p)
                           (grids sk))))%N.
Proof.
  intros Ht Hp Hx Hi.
  destruct (push_step _ _ _ Ht Hp) as (_ & Hog & ->).
  destruct Ht as (pos & Hx' & Hlen & _ & He & _).
  assert (pos = posk) by congruence. subst pos.
  rewrite nth_zip_with_add
    by (rewrite length_map, (push_on_grid _ _ _ Hp Hx), length_map;
        congruence).
  rewrite nth_count_true, (push_on_grid _ _ _ Hp Hx).
  rewrite (nth_map_of_nth_error _ _ _ _ _ Hi).
  now rewrite count_true_grids.
Qed.

Lemma entered_grid_zero_iff n s0 :
  tracking n s0 -> entered_grid s0 = repeat 0%N n ->
  forall k sk, pushes k s0 = Ok sk ->
  forall i, i < n ->
    nth i (entered_grid sk) 0%N = 0%N <->
    (forall j sj posj p grid,
        j < k -> pushes j s0 = Ok sj -> x sj = Some posj ->
        nth_error posj i = Some p -> In grid (grids s0) ->
        Grid.on_grid grid p = false).
Proof.
  intros H0 Hz. induction k as [|k IH]; intros sk Hk i Hi.
  - simpl in Hk. injection Hk as <-. rewrite Hz, nth_repeat.
    split; [intros _ j sj posj p grid Hj; lia | reflexivity].
  - simpl in Hk. destruct (pushes k s0) as [s|] eqn:Ek; [|discriminate].
    simpl in Hk.
    pose proof (pushes_tracking _ _ _ _ H0 Ek) as Ht.
    destruct (pushes_same_setup _ _ _ Ek) as (Hg & _).
    destruct Ht as (posk & Hxk & Hlk & Hrest).
    destruct (nth_error posk i) as [pk|] eqn:Epk;
      [|apply nth_error_None in Epk; lia].
    assert (Ht : tracking n s) by (exists posk; auto).
    rewrite (entered_grid_step _ _ _ _ _ _ Ht Hk Hxk Epk), Hg.
    specialize (IH s eq_refl i Hi).
    split.
    + intros Hsum. apply N.eq_add_0 in Hsum. destruct Hsum as [Hs Hc].
      intros j sj posj p grid Hj Hpj Hxj Hpi Hin.
      destruct (Nat.eq_dec j k) as [-> | Hne].
      * assert (sj = s) by congruence. subst sj.
        assert (posj = posk) by congruence. subst posj.
        assert (p = pk) by congruence. subst p.
        now apply (proj1 (no_grid_holds _ _) Hc).
      * apply (proj1 IH Hs j sj posj p grid); auto. lia.
    + intros Hall. apply N.eq_add_0. split.
      * apply IH. intros j sj posj p grid Hj. apply Hall. lia.
      * apply no_grid_holds. intros grid Hin.
        apply (Hall k s posk pk grid); auto.
Qed.

Lemma run_setup_tracking t pos vel charge mass self dt_arg w s0 :
  load_particles t pos vel charge mass = (self, Ok tt) ->
  run_setup self dt_arg w = Ok s0 ->
  tracking (length pos) s0 /\ x s0 = Some pos /\ grids s0 = grids t
  /\ entered_grid s0 = repeat 0%N (length pos).
Proof.
  unfold load_particles.
  destruct (_enforce_order t); [|discriminate].
  destruct (length pos =? length vel) eqn:El; simpl; [|discriminate].
  apply Nat.eqb_eq in El. intros [= <-].
  unfold run_setup, _validate_inputs.
  destruct (existsb (String.eqb w) field_weightings); [|discriminate].
  simpl. intros [= <-]. simpl. split; [|now repeat split].
  exists pos. simpl. rewrite repeat_length. auto.
Qed.

(** C9.  In a run of a tracker on which particles have been loaded,
    [entered_grid] is zero for every particle when the loop starts.  A pass
    of the loop adds to the entry of particle [i] the number of grids of
    the tracker that hold the position the particle has when the pass
    begins ([grid.on_grid] asked of that position, for every grid), a
    number that is not negative, so no entry ever decreases.  After any
    number of passes the entry of a particle is zero exactly when, at the
    start of every pass so far, no grid held the position of the
    particle. *)
Theorem entered_grid_counts (t self s0 : ParticleTracker)
    (pos vel : list vec3) (charge mass : float)
    (dt_arg : option (list float)) (w : string)
    (Hload : load_particles t pos vel charge mass = (self, Ok tt))
    (Hsetup : run_setup self dt_arg w = Ok s0) :
  x s0 = Some pos
  /\ entered_grid s0 = repeat 0%N (length pos)
  /\ forall k sk, pushes k s0 = Ok sk ->
       exists posk,
         x sk = Some posk /\ length posk = length pos
         /\ length (entered_grid sk) = length pos
         /\ (forall s' i p,
               _push sk = Ok s' -> nth_error posk i = Some p ->
               nth i (entered_grid s') 0%N
               = (nth i (entered_grid sk) 0
                  + N.of_nat
                      (length (filter (fun grid => Grid.on_grid grid p)
                                 (grids t))))%N
               /\ (nth i (entered_grid sk) 0
                   <= nth i (entered_grid s') 0)%N)
         /\ (forall i, i < length pos ->
               nth i (entered_grid sk) 0%N = 0%N <->
               (forall j sj posj p grid,
                   j < k -> pushes j s0 = Ok sj -> x sj = Some posj ->
                   nth_error posj i = Some p -> In grid (grids t) ->
                   Grid.on_grid grid p = false)).
Proof.
  destruct (run_setup_tracking _ _ _ _ _ _ _ _ _ Hload Hsetup)
    as (H0 & Hx0 & Hg0 & Hz).
  split; [exact Hx0|]. split; [exact Hz|]. intros k sk Hk.
  pose proof (pushes_tracking _ _ _ _ H0 Hk) as Ht.
  destruct (pushes_same_setup _ _ _ Hk) as (Hg & _).
  destruct Ht as (posk & Hxk & Hlk & Hvk & Hek & Hnk).
  assert (Ht : tracking (length pos) sk) by (exists posk; auto).
  exists posk. split; [exact Hxk|]. split; [exact Hlk|].
  split; [exact Hek|]. split.
  - intros s' i p Hp Hi.
    rewrite (entered_grid_step _ _ _ _ _ _ Ht Hp Hxk Hi), Hg, Hg0.
    split; [reflexivity | lia].
  - intros i Hi. rewrite <- Hg0.
    now apply (entered_grid_zero_iff _ _ H0 Hz).
Qed.

End EnteredGridCounts.

Lemma entered_grid_counts_witness :
  exists self s1,
    load_particles (Fixtures.tracker false Fixtures.origin)
      [Fixtures.origin] [Fixtures.along_x F64.one] F64.one F64.one
    = (self, Ok tt)
    /\ run_setup self (Some [F64.one]) "volume averaged" = Ok Cases.forced
    /\ entered_grid Cases.forced = [0%N]
    /\ _push (H := Fixtures.field_free) Cases.forced = Ok s1
    /\ nth 0 (entered_grid s1) 0%N = 1%N.
Proof.
  do 2 eexists.
  split; [reflexivity|]. split; [reflexivity|].
  destruct (entered_grid_counts (H := Fixtures.field_free)
              (Fixtures.tracker false Fixtures.origin) _ Cases.forced
              [Fixtures.origin] [Fixtures.along_x F64.one] F64.one F64.one
              (Some [F64.one]) "volume averaged" eq_refl eq_refl)
    as (_ & Hz & Hk).
  split; [exact Hz|]. split; [reflexivity|].
  destruct (Hk 0 Cases.forced eq_refl) as (pos0 & Hp0 & _ & _ & Hstep & _).
  change (Some [Fixtures.origin] = Some pos0) in Hp0. injection Hp0 as <-.
  eapply eq_trans;
    [exact (proj1 (Hstep _ 0 Fixtures.origin eq_refl eq_refl))
    | vm_compute; reflexivity].
Defined.

(** The particle of [Cases.forced] starts at the origin of a grid that
    reaches to 1 m and moves by 1 m in each pass: it is on the grid when
    the first and the second pass begin and off it from the third on, and
    its counter stays at 2. *)
Example entered_grid_after_leaving :
  map (fun k => match pushes (H := Fixtures.field_free) k Cases.forced with
                | Ok s => entered_grid s
                | Raise _ => []
                end) [0; 1; 2; 3; 4]
  = [[0%N]; [1%N]; [2%N]; [2%N]; [2%N]].
Proof. vm_compute. reflexivity. Qed.

(** ** Rounding never invents a NaN *)

Section Rounding.

Variables prec emax : Z.

Open Scope Z_scope.

Lemma shr_1_nonneg mrs : 0 <= shr_m mrs -> 0 <= shr_m (shr_1 mrs).
Proof.
  destruct mrs as [mz r s]. simpl.
  destruct mz as [|p|p]; simpl; [lia | | lia].
  destruct p; simpl; lia.
Qed.

Lemma iter_shr_1_nonneg p :
  forall mrs, 0 <= shr_m mrs -> 0 <= shr_m (iter_pos shr_1 p mrs).
Proof.
  induction p as [p IH|p IH|]; intros mrs Hm; simpl.
  - apply IH, IH, shr_1_nonneg, Hm.
  - apply IH, IH, Hm.
  - apply shr_1_nonneg, Hm.
Qed.

Lemma shr_record_of_loc_m mz l : shr_m (shr_record_of_loc mz l) = mz.
Proof. destruct l as [|[]]; reflexivity. Qed.

Lemma shr_fexp_nonneg mz e l :
  0 <= mz -> 0 <= shr_m (fst (shr_fexp prec emax mz e l)).
Proof.
  intros Hm. unfold shr_fexp, shr.
  destruct (fexp prec emax (Zdigits2 mz + e) - e); simpl;
    rewrite ?shr_record_of_loc_m; auto.
  apply iter_shr_1_nonneg. now rewrite shr_record_of_loc_m.
Qed.

Lemma round_nearest_even_nonneg mz l :
  0 <= mz -> 0 <= round_nearest_even mz l.
Proof.
  intros Hm. unfold round_nearest_even.
  destruct l as [|[]]; try destruct (Z.even mz); lia.
Qed.

Lemma binary_round_aux_not_nan sx mz e l :
  0 <= mz -> F64.isnan (binary_round_aux prec emax sx mz e l) = false.
Proof.
  intros Hm. unfold binary_round_aux.
  pose proof (shr_fexp_nonneg mz e l Hm) as H1.
  destruct (shr_fexp prec emax mz e l) as [mrs' e']. simpl in H1.
  pose proof (shr_fexp_nonneg _ e' loc_Exact
                (round_nearest_even_nonneg _ (loc_of_shr_record mrs') H1))
    as H2.
  destruct (shr_fexp prec emax _ e' loc_Exact) as [mrs'' e'']. simpl in H2.
  destruct (shr_m mrs''); [reflexivity | | lia].
  now destruct (e'' <=? emax - prec).
Qed.

Lemma binary_round_not_nan sx mp e :
  F64.isnan (binary_round prec emax sx mp e) = false.
Proof.
  unfold binary_round. destruct (shl_align _ _ _) as [mz ez].
  now apply binary_round_aux_not_nan.
Qed.

(** Adding a finite number to a number leaves it a number. *)
Lemma SFadd_not_nan a b :
  F64.isnan a = false -> F64.isfinite b = true ->
  F64.isnan (SFadd prec emax a b) = false.
Proof.
  destruct a as [sa|sa| |sa ma ea], b as [sb|sb| |sb mb eb];
    simpl; try discriminate; intros _ _; try reflexivity.
  - now destruct sa, sb.
  - unfold binary_normalize.
    destruct (_ + _); [reflexivity | |]; apply binary_round_not_nan.
Qed.

End Rounding.

Lemma nan_to_num_finite a : F64.isfinite (nan_to_num a) = true.
Proof. now destruct a as [s|[]| |s mz e]. Qed.

Lemma nan_to_num_nan a : F64.isnan a = true -> nan_to_num a = F64.zero.
Proof. now destruct a as [s|[]| |s mz e]. Qed.

Lemma nan_to_num_inf :
  nan_to_num F64.inf = F64.max_float
  /\ nan_to_num (S754_infinity true) = SFopp F64.max_float.
Proof. now split. Qed.

Lemma nan_to_num_number a : F64.isfinite a = true -> nan_to_num a = a.
Proof. now destruct a as [s|[]| |s mz e]. Qed.

(** ** Summing the fields of the grids *)

Lemma forallb_map {A B : Type} (f : A -> B) (P : B -> bool) l :
  forallb P (map f l) = forallb (fun a => P (f a)) l.
Proof. induction l as [|a l IH]; simpl; [reflexivity | now rewrite IH]. Qed.

Lemma fields_nan_to_num_components f :
  components (fields_nan_to_num f) = map nan_to_num (components f).
Proof. reflexivity. Qed.

Lemma fields_nan_to_num_finite f : all_finite (fields_nan_to_num f) = true.
Proof.
  unfold all_finite. rewrite fields_nan_to_num_components, forallb_map.
  apply forallb_forall. intros a _. apply nan_to_num_finite.
Qed.

Lemma all_nan_to_zero f :
  all_nan f = true -> fields_nan_to_num f = zero_fields.
Proof.
  unfold all_nan, components. simpl. rewrite !andb_true_iff.
  intros (H1 & H2 & H3 & H4 & H5 & H6 & _). unfold fields_nan_to_num.
  now rewrite !nan_to_num_nan.
Qed.

Lemma add_fields_no_nan tot c :
  no_nan tot = true -> all_finite c = true -> no_nan (add_fields tot c) = true.
Proof.
  unfold no_nan, all_finite, components. simpl.
  rewrite !andb_true_iff, !negb_true_iff.
  intros (H1 & H2 & H3 & H4 & H5 & H6 & _) (F1 & F2 & F3 & F4 & F5 & F6 & _).
  unfold F64.add. now rewrite !SFadd_not_nan.
Qed.

Lemma zip_with_add_fields_no_nan tot c :
  forallb no_nan tot = true -> forallb all_finite c = true ->
  forallb no_nan (zip_with add_fields tot c) = true.
Proof.
  revert c. induction tot as [|t tot IH]; intros [|f c]; simpl; auto.
  rewrite !andb_true_iff. intros [Ht Htot] [Hf Hc].
  split; [now apply add_fields_no_nan | now apply IH].
Qed.

Lemma interpolate_valid w grid pos :
  In w field_weightings ->
  exists raw, interpolate w grid pos = Ok raw /\ length raw = length pos.
Proof.
  intros [<- | [<- | []]]; unfold interpolate; simpl;
    eexists; (split; [reflexivity | apply length_map]).
Qed.

Lemma sum_fields_no_nan w gs pos :
  In w field_weightings ->
  forall tot, forallb no_nan tot = true ->
  exists F, sum_fields w gs pos tot = Ok F /\ forallb no_nan F = true.
Proof.
  intros Hw. induction gs as [|g gs IH]; intros tot Htot; simpl.
  - now exists tot.
  - unfold contribution.
    destruct (interpolate_valid w g pos Hw) as (raw & -> & _). simpl.
    apply IH. apply zip_with_add_fields_no_nan; [assumption|].
    rewrite forallb_map. apply forallb_forall. intros f _.
    apply fields_nan_to_num_finite.
Qed.

(** C6.  In a pass of the push loop, with either weighting, what a grid
    interpolates goes through [nan_to_num], component by component, before
    it is added to the totals: a NaN, which is what an interpolator gives
    at a point off its grid, becomes zero and a finite value is kept, so
    that what a grid adds is finite, and is zero in every component for a
    particle off the grid.  The totals are those contributions added up
    grid after grid, and over any list of grids, overlapping or not, they
    hold no NaN. *)
Theorem summed_fields_hold_no_nan (w : string) (gs : list AbstractGrid)
    (pos : list vec3) (n : nat)
    (Hw : In w field_weightings) :
  (forall grid, exists raw,
      interpolate w grid pos = Ok raw
      /\ length raw = length pos
      /\ contribution w grid pos = Ok (map fields_nan_to_num raw)
      /\ (forall f, In f raw ->
            components (fields_nan_to_num f) = map nan_to_num (components f)
            /\ all_finite (fields_nan_to_num f) = true
            /\ (all_nan f = true -> fields_nan_to_num f = zero_fields))
      /\ (forall gs' tot,
            sum_fields w (grid :: gs') pos tot
            = sum_fields w gs' pos
                (zip_with add_fields tot (map fields_nan_to_num raw))))
  /\ (forall a,
        (F64.isnan a = true -> nan_to_num a = F64.zero)
        /\ (F64.isfinite a = true -> nan_to_num a = a))
  /\ exists F,
       sum_fields w gs pos (repeat zero_fields n) = Ok F
       /\ forallb no_nan F = true.
Proof.
  split; [|split].
  - intros grid.
    destruct (interpolate_valid w grid pos Hw) as (raw & Hraw & Hlen).
    exists raw. unfold contribution. rewrite Hraw. simpl.
    split; [reflexivity|]. split; [exact Hlen|]. split; [reflexivity|].
    split.
    + intros f _. split; [reflexivity|].
      split; [apply fields_nan_to_num_finite | apply all_nan_to_zero].
    + intros gs' tot. unfold contribution. now rewrite Hraw.
  - intros a. split; [apply nan_to_num_nan | apply nan_to_num_number].
  - apply sum_fields_no_nan; [assumption|].
    apply forallb_forall. intros f Hf. apply repeat_spec in Hf. now subst f.
Qed.

Lemma summed_fields_hold_no_nan_witness :
  Grid.on_grid Fixtures.charged_grid Cases.far_away = false
  /\ Grid.on_grid Fixtures.coarse_grid Cases.far_away = false
  /\ exists F,
       sum_fields "nearest neighbor"
         [Fixtures.charged_grid; Fixtures.coarse_grid]
         [Fixtures.origin; Cases.far_away] (repeat zero_fields 2)
       = Ok F
       /\ forallb no_nan F = true.
Proof.
  split; [vm_compute; reflexivity|]. split; [vm_compute; reflexivity|].
  apply (summed_fields_hold_no_nan "nearest neighbor"
           [Fixtures.charged_grid; Fixtures.coarse_grid]
           [Fixtures.origin; Cases.far_away] 2).
  simpl. right. left. reflexivity.
Defined.

(** ** Maxima and minima of arrays without NaN *)

Lemma fle_refl a : fle a a.
Proof. unfold fle, lex_le. destruct (rank a) as [[r1 r2] r3]. lia. Qed.

Lemma fle_trans a b c : fle a b -> fle b c -> fle a c.
Proof.
  unfold fle, lex_le.
  destruct (rank a) as [[a1 a2] a3], (rank b) as [[b1 b2] b3],
    (rank c) as [[c1 c2] c3]. lia.
Qed.

Lemma fle_total a b : fle a b \/ fle b a.
Proof.
  unfold fle, lex_le.
  destruct (rank a) as [[a1 a2] a3], (rank b) as [[b1 b2] b3]. lia.
Qed.

Lemma compare_cont_Eq p p' : Pos.compare_cont Eq p p' = Pos.compare p p'.
Proof. reflexivity. Qed.

(** [SFleb] decides [fle] on numbers. *)
Lemma leb_fle a b :
  F64.isnan a = false -> F64.isnan b = false ->
  (F64.leb a b = true <-> fle a b).
Proof.
  unfold F64.leb, SFleb, fle.
  destruct a as [sa|sa| |sa ma ea], b as [sb|sb| |sb mb eb];
    try discriminate; intros _ _; simpl;
    try (destruct sa); try (destruct sb); simpl;
    try (split; [intros _; lia | reflexivity]);
    try (split; [discriminate | lia]).
  - rewrite compare_cont_Eq.
    destruct (Z.compare_spec ea eb), (Pos.compare_spec ma mb); simpl;
      split; try discriminate; try reflexivity; intros; lia.
  - rewrite compare_cont_Eq.
    destruct (Z.compare_spec ea eb), (Pos.compare_spec ma mb); simpl;
      split; try discriminate; try reflexivity; intros; lia.
Qed.

Lemma leb_total a b :
  F64.isnan a = false -> F64.isnan b = false ->
  F64.leb a b = true \/ F64.leb b a = true.
Proof.
  intros Ha Hb. destruct (fle_total a b); [left | right];
    now apply leb_fle.
Qed.

Lemma leb_false_fle a b :
  F64.isnan a = false -> F64.isnan b = false ->
  F64.leb a b = false -> fle b a.
Proof.
  intros Ha Hb Hab. destruct (leb_total a b Ha Hb) as [H1|H1];
    [congruence | now apply leb_fle].
Qed.

(** [np.maximum] of two numbers is one of them and bounds both. *)
Lemma np_maximum_spec a b :
  F64.isnan a = false -> F64.isnan b = false ->
  (np_maximum a b = a \/ np_maximum a b = b)
  /\ fle a (np_maximum a b) /\ fle b (np_maximum a b).
Proof.
  intros Ha Hb. unfold np_maximum, F64.geb. rewrite Ha.
  change (SFleb b a) with (F64.leb b a).
  destruct (F64.leb b a) eqn:E.
  - split; [now left|]. split; [apply fle_refl | now apply leb_fle].
  - split; [now right|]. split; [now apply leb_false_fle | apply fle_refl].
Qed.

Lemma np_minimum_spec a b :
  F64.isnan a = false -> F64.isnan b = false ->
  (np_minimum a b = a \/ np_minimum a b = b)
  /\ fle (np_minimum a b) a /\ fle (np_minimum a b) b.
Proof.
  intros Ha Hb. unfold np_minimum. rewrite Ha.
  destruct (F64.leb a b) eqn:E.
  - split; [now left|]. split; [apply fle_refl | now apply leb_fle].
  - split; [now right|]. split; [now apply leb_false_fle | apply fle_refl].
Qed.

Lemma fold_maximum_spec l :
  forall a, F64.isnan a = false -> numbers l ->
  In (fold_left np_maximum l a) (a :: l)
  /\ forall c, In c (a :: l) -> fle c (fold_left np_maximum l a).
Proof.
  induction l as [|b l IH]; intros a Ha Hl; simpl.
  - split; [now left|]. intros c [<- | []]. apply fle_refl.
  - assert (Hb : F64.isnan b = false) by (apply Hl; now left).
    destruct (np_maximum_spec a b Ha Hb) as (Hin & Hga & Hgb).
    assert (Hm : F64.isnan (np_maximum a b) = false)
      by (destruct Hin as [-> | ->]; assumption).
    destruct (IH (np_maximum a b) Hm) as [Hmem Hbound].
    { intros c Hc. apply Hl. now right. }
    split.
    + destruct Hmem as [Hmem | Hmem]; [|now right; right].
      rewrite <- Hmem. destruct Hin as [-> | ->]; [now left | right; now left].
    + intros c [<- | [<- | Hc]].
      * eapply fle_trans; [exact Hga | apply Hbound; now left].
      * eapply fle_trans; [exact Hgb | apply Hbound; now left].
      * apply Hbound. now right.
Qed.

Lemma fold_minimum_spec l :
  forall a, F64.isnan a = false -> numbers l ->
  In (fold_left np_minimum l a) (a :: l)
  /\ forall c, In c (a :: l) -> fle (fold_left np_minimum l a) c.
Proof.
  induction l as [|b l IH]; intros a Ha Hl; simpl.
  - split; [now left|]. intros c [<- | []]. apply fle_refl.
  - assert (Hb : F64.isnan b = false) by (apply Hl; now left).
    destruct (np_minimum_spec a b Ha Hb) as (Hin & Hga & Hgb).
    assert (Hm : F64.isnan (np_minimum a b) = false)
      by (destruct Hin as [-> | ->]; assumption).
    destruct (IH (np_minimum a b) Hm) as [Hmem Hbound].
    { intros c Hc. apply Hl. now right. }
    split.
    + destruct Hmem as [Hmem | Hmem]; [|now right; right].
      rewrite <- Hmem. destruct Hin as [-> | ->]; [now left | right; now left].
    + intros c [<- | [<- | Hc]].
      * eapply fle_trans; [apply Hbound; now left | exact Hga].
      * eapply fle_trans; [apply Hbound; now left | exact Hgb].
      * apply Hbound. now right.
Qed.

(** [np.max] of a non-empty array of numbers is its greatest entry, and
    [np.min] its least. *)
Lemma np_max_spec l :
  l <> [] -> numbers l ->
  exists top, np_max l = Ok top /\ In top l /\ forall c, In c l -> fle c top.
Proof.
  destruct l as [|a l]; [congruence|]. intros _ Hl.
  exists (fold_left np_maximum l a). split; [reflexivity|].
  apply fold_maximum_spec; [apply Hl; now left|].
  intros c Hc. apply Hl. now right.
Qed.

Lemma np_min_spec l :
  l <> [] -> numbers l ->
  exists low, np_min l = Ok low /\ In low l /\ forall c, In c l -> fle low c.
Proof.
  destruct l as [|a l]; [congruence|]. intros _ Hl.
  exists (fold_left np_minimum l a). split; [reflexivity|].
  apply fold_minimum_spec; [apply Hl; now left|].
  intros c Hc. apply Hl. now right.
Qed.

(** [np.clip] puts a number between the bounds when they are in order. *)
Lemma np_clip_spec c lo hi :
  F64.isnan c = false -> F64.isnan lo = false -> F64.isnan hi = false ->
  fle lo hi ->
  F64.isnan (np_clip c lo hi) = false
  /\ fle lo (np_clip c lo hi) /\ fle (np_clip c lo hi) hi.
Proof.
  intros Hc Hlo Hhi Hle. unfold np_clip.
  destruct (np_maximum_spec c lo Hc Hlo) as (Hin & _ & Hge).
  assert (Hm : F64.isnan (np_maximum c lo) = false)
    by (destruct Hin as [-> | ->]; assumption).
  destruct (np_minimum_spec hi (np_maximum c lo) Hhi Hm) as (Hin' & Hl1 & Hl2).
  split; [destruct Hin' as [-> | ->]; assumption|]. split; [|exact Hl1].
  destruct Hin' as [-> | ->]; assumption.
Qed.

(** ** The adaptive time step *)

Lemma mapM_total {A B : Type} (f : A -> result B) (l : list A) :
  (forall a, In a l -> exists b, f a = Ok b) ->
  exists bs, mapM f l = Ok bs
             /\ length bs = length l
             /\ forall i d d', i < length l ->
                  f (nth i l d) = Ok (nth i bs d').
Proof.
  induction l as [|a l IH]; intros Hf; simpl.
  - exists []. repeat split. intros i d d' Hi. lia.
  - destruct (Hf a) as [b Hb]; [now left|]. rewrite Hb. simpl.
    destruct IH as (bs & -> & Hlen & Hnth).
    { intros a' Ha'. apply Hf. now right. }
    simpl. exists (b :: bs). split; [reflexivity|]. split; [simpl; lia|].
    intros [|i] d d' Hi; simpl; [exact Hb | apply Hnth; lia].
Qed.

Lemma np_min_total l : l <> [] -> exists low, np_min l = Ok low.
Proof. destruct l; [congruence | eexists; reflexivity]. Qed.

Lemma np_max_total l : l <> [] -> exists top, np_max l = Ok top.
Proof. destruct l; [congruence | eexists; reflexivity]. Qed.

Lemma candidates_not_nil self gs gyro p : candidates self gs gyro p <> [].
Proof.
  unfold candidates. intros Heq. symmetry in Heq.
  exact (app_cons_not_nil _ _ _ Heq).
Qed.

Lemma nth_error_seq_0 n i : i < n -> nth_error (seq 0 n) i = Some i.
Proof.
  intros Hi. rewrite (nth_error_nth' _ 0) by now rewrite length_seq.
  now rewrite seq_nth.
Qed.

Lemma gridstep_total self :
  0 < length (v self) ->
  exists vm, vmax self = Ok vm
    /\ gridstep self
       = Ok (map (fun grid =>
                    F64.mul F64.half (F64.div (Grid.grid_resolution grid) vm))
               (grids self)).
Proof.
  intros Hv. unfold gridstep.
  destruct (np_max_total (map norm (v self))) as [vm Hvm].
  { destruct (v self); [simpl in Hv; lia | discriminate]. }
  exists vm. unfold vmax. rewrite Hvm. now split.
Qed.

(** C3, as amended.  With at least one particle loaded, the candidate of
    particle [p] for grid [i] is half the resolution of that grid divided
    by [vmax], the largest speed over all the particles (the same divisor
    for every particle), when the particle is on the grid, and infinite
    when it is not. *)
Theorem grid_candidates_use_vmax (self : ParticleTracker)
    (Hv : 0 < length (v self)) :
  exists vm gs,
    vmax self = Ok vm
    /\ (numbers (map norm (v self)) ->
        In vm (map norm (v self))
        /\ forall w, In w (v self) -> fle (norm w) vm)
    /\ gridstep self = Ok gs
    /\ length gs = num_grids self
    /\ forall p i grid,
         nth_error (grids self) i = Some grid ->
         nth_error (grid_candidates self gs p) i
         = Some (if on_grid_at self p i
                 then F64.mul F64.half
                        (F64.div (Grid.grid_resolution grid) vm)
                 else F64.inf).
Proof.
  destruct (gridstep_total self Hv) as (vm & Hvm & Hgs).
  exists vm. eexists. split; [exact Hvm|]. split; [|split; [exact Hgs|split]].
  - intros Hnum. destruct (np_max_spec (map norm (v self))) as (top & Ht & Hin & Hb).
    { destruct (v self); [simpl in Hv; lia | discriminate]. }
    { exact Hnum. }
    unfold vmax in Hvm. rewrite Hvm in Ht. injection Ht as <-.
    split; [exact Hin|]. intros w Hw. apply Hb. now apply in_map.
  - apply length_map.
  - intros p i grid Hi. unfold grid_candidates.
    assert (Hlt : i < num_grids self).
    { unfold num_grids. apply nth_error_Some. congruence. }
    rewrite nth_error_map, (nth_error_seq_0 _ _ Hlt). simpl.
    now rewrite (nth_map_of_nth_error _ _ _ _ _ Hi).
Qed.

Lemma grid_candidates_use_vmax_witness :
  exists vm gs,
    vmax Fixtures.slow_and_fast = Ok vm
    /\ gridstep Fixtures.slow_and_fast = Ok gs
    /\ nth_error (grid_candidates Fixtures.slow_and_fast gs 0) 0
       = Some (F64.mul F64.half
                 (F64.div (Grid.grid_resolution Fixtures.empty_grid) vm)).
Proof.
  destruct (grid_candidates_use_vmax Fixtures.slow_and_fast)
    as (vm & gs & Hvm & _ & Hgs & _ & Hc); [vm_compute; lia|].
  exists vm, gs. split; [exact Hvm|]. split; [exact Hgs|].
  exact (Hc 0 0 Fixtures.empty_grid eq_refl).
Defined.

(** C3, the claim as stated fails: the first particle moves at 1 m/s on a
    grid of resolution 1 m, so its own speed gives 0.5 s, but its candidate
    is 0.25 s, from the 2 m/s of the other particle. *)
Lemma slower_particle_candidate_not_own_speed :
  on_grid_at Fixtures.slow_and_fast 0 0 = true
  /\ (gs <- gridstep Fixtures.slow_and_fast ;;
      Ok (grid_candidates Fixtures.slow_and_fast gs 0))
     = Ok [Fixtures.quarter]
  /\ own_speed_candidate Fixtures.empty_grid (Fixtures.along_x F64.one)
     = F64.half
  /\ Fixtures.quarter <> F64.half.
Proof.
  split; [reflexivity|]. split; [vm_compute; reflexivity|].
  split; [vm_compute; reflexivity|]. vm_compute. discriminate.
Qed.

Lemma length_pos_not_nil {A : Type} (l : list A) : 0 < length l -> l <> [].
Proof. destruct l; simpl; [lia | discriminate]. Qed.

Lemma Bmag_total F : 0 < length F -> exists bmag, Bmag F = Ok bmag.
Proof.
  intros HF. apply np_max_total. destruct F; [simpl in HF; lia | discriminate].
Qed.

(** C4, as amended.  With [dt] a range [lo, hi], at least one particle and
    at least one grid, [_adaptive_dt] returns one [dt] per particle.  The
    row of a particle in [candidates] holds its grid candidates and, last,
    a twelfth of the gyroperiod, which is infinite when max|B| is zero;
    every entry is clipped to [lo, hi] and the lowest clipped entry is the
    [dt] of the particle, unless it is infinite: then the [dt] is
    [np.max(gridstep)], the largest of the values [0.5 * ds / vmax] over all
    the grids, not clipped. *)
Theorem adaptive_dt_clamped_minimum (self : ParticleTracker)
    (F : list fields) (lo hi : float) (rest : list float)
    (Hdt : dt self = lo :: hi :: rest)
    (Hv : 0 < length (v self))
    (HF : 0 < length F)
    (Hg : 0 < num_grids self) :
  exists gs bmag largest dts,
    gridstep self = Ok gs
    /\ Bmag F = Ok bmag
    /\ np_max gs = Ok largest
    /\ (numbers gs -> In largest gs /\ forall g, In g gs -> fle g largest)
    /\ (F64.eqb bmag F64.zero = true ->
        F64.div (gyroperiod self bmag) F64.twelve = F64.inf)
    /\ (F64.eqb bmag F64.zero = false ->
        gyroperiod self bmag
        = F64.div (F64.mul (F64.mul F64.two F64.pi) (m self))
            (F64.mul (q self) bmag))
    /\ _adaptive_dt self F = Ok dts
    /\ length dts = nparticles_tracked self
    /\ (forall p, p < nparticles_tracked self ->
          exists lowest,
            candidates self gs (gyroperiod self bmag) p
            = grid_candidates self gs p
              ++ [F64.div (gyroperiod self bmag) F64.twelve]
            /\ np_min (map (fun c => np_clip c lo hi)
                         (candidates self gs (gyroperiod self bmag) p))
               = Ok lowest
            /\ (numbers (map (fun c => np_clip c lo hi)
                           (candidates self gs (gyroperiod self bmag) p)) ->
                forall c,
                  In c (candidates self gs (gyroperiod self bmag) p) ->
                  fle lowest (np_clip c lo hi))
            /\ nth p dts F64.nan
               = (if F64.eqb lowest F64.inf then largest else lowest))
    /\ (forall c, F64.isnan c = false -> F64.isnan lo = false ->
                  F64.isnan hi = false -> fle lo hi ->
                  fle lo (np_clip c lo hi) /\ fle (np_clip c lo hi) hi).
Proof.
  destruct (gridstep_total self Hv) as (vm & Hvm & Hgs).
  destruct (Bmag_total F HF) as [bmag Hb].
  set (gs := map (fun grid =>
                    F64.mul F64.half (F64.div (Grid.grid_resolution grid) vm))
               (grids self)) in *.
  assert (Hgs_nil : gs <> []).
  { apply length_pos_not_nil. unfold gs. now rewrite length_map. }
  destruct (np_max_total gs Hgs_nil) as [largest Hl].
  set (row := fun p => map (fun c => np_clip c lo hi)
                         (candidates self gs (gyroperiod self bmag) p)).
  destruct (mapM_total (fun p => np_min (row p))
              (seq 0 (nparticles_tracked self)))
    as (mins & Hmins & Hlen & Hnth).
  { intros p _. apply np_min_total. unfold row. intros Heq.
    apply map_eq_nil in Heq. exact (candidates_not_nil _ _ _ _ Heq). }
  rewrite length_seq in Hlen.
  exists gs, bmag, largest,
    (map (fun d => if F64.eqb d F64.inf then largest else d) mins).
  split; [exact Hgs|]. split; [exact Hb|]. split; [exact Hl|].
  split; [|split; [|split; [|split; [|split; [|split]]]]].
  - intros Hnum. destruct (np_max_spec gs Hgs_nil Hnum) as (top & Ht & Hin & Hbd).
    rewrite Hl in Ht. injection Ht as <-. now split.
  - intros Hz. unfold gyroperiod. now rewrite Hz.
  - intros Hz. unfold gyroperiod. now rewrite Hz.
  - unfold _adaptive_dt. rewrite Hdt. cbn [length Nat.eqb].
    rewrite Hgs. cbn [bind]. rewrite Hb. cbn [bind].
    unfold nth_error_or_raise. cbn [nth_error bind].
    unfold row in Hmins. rewrite Hmins. cbn [bind]. now rewrite Hl.
  - now rewrite length_map.
  - intros p Hp. exists (nth p mins F64.nan).
    pose proof (Hnth p 0 F64.nan) as Hrow.
    rewrite length_seq, seq_nth in Hrow by assumption.
    specialize (Hrow Hp). simpl in Hrow.
    split; [reflexivity|]. split; [exact Hrow|]. split.
    + intros Hnum c Hc.
      destruct (np_min_spec (row p)) as (low & Hlow & _ & Hbd).
      { unfold row. intros Heq. apply map_eq_nil in Heq.
        exact (candidates_not_nil _ _ _ _ Heq). }
      { exact Hnum. }
      rewrite Hrow in Hlow. injection Hlow as <-.
      apply Hbd. unfold row.
      exact (in_map (fun c' => np_clip c' lo hi) _ _ Hc).
    + rewrite (nth_indep _ F64.nan
                 (if F64.eqb F64.nan F64.inf then largest else F64.nan))
        by (rewrite length_map; lia).
      now rewrite (map_nth (fun d => if F64.eqb d F64.inf then largest else d)).
  - intros c Hc Hlo Hhi Hle.
    destruct (np_clip_spec c lo hi Hc Hlo Hhi Hle) as (_ & H1 & H2).
    now split.
Qed.

Lemma adaptive_dt_clamped_minimum_witness :
  exists dts,
    _adaptive_dt Fixtures.one_off_grid [zero_fields; zero_fields] = Ok dts
    /\ length dts = 2.
Proof.
  destruct (adaptive_dt_clamped_minimum Fixtures.one_off_grid
              [zero_fields; zero_fields] F64.zero F64.inf [] eq_refl)
    as (gs & bmag & largest & dts & _ & _ & _ & _ & _ & _ & Hd & Hlen & _);
    [vm_compute; lia | vm_compute; lia | vm_compute; lia |].
  exists dts. now split.
Defined.

(** C4, the claim as stated fails: the second particle is on no grid and
    the lowest of its clipped candidates is infinite; the largest finite
    grid candidate over the two particles is the 0.5 s of the first
    particle on the first grid, and the second particle gets 1 s, from the
    second grid, which no particle is on. *)
Lemma fallback_is_not_largest_candidate :
  _adaptive_dt Fixtures.one_off_grid [zero_fields; zero_fields]
  = Ok [F64.half; F64.one]
  /\ gridstep Fixtures.one_off_grid = Ok [F64.half; F64.one]
  /\ candidates Fixtures.one_off_grid [F64.half; F64.one] F64.inf 1
     = [F64.inf; F64.inf; F64.inf]
  /\ np_min (map (fun c => np_clip c F64.zero F64.inf)
               [F64.inf; F64.inf; F64.inf]) = Ok F64.inf
  /\ largest_finite_candidate
       [grid_candidates Fixtures.one_off_grid [F64.half; F64.one] 0;
        grid_candidates Fixtures.one_off_grid [F64.half; F64.one] 1]
     = Ok F64.half
  /\ F64.one <> F64.half.
Proof.
  repeat split; try (vm_compute; reflexivity). vm_compute. discriminate.
Qed.

(** *** Particles at rest *)

Lemma norm_zero w : zero_vec w = true -> norm w = F64.zero.
Proof.
  destruct w as [[a b] c]. simpl.
  destruct a as [[]| | |], b as [[]| | |], c as [[]| | |];
    try discriminate; intros _; reflexivity.
Qed.

Lemma fold_left_const {A : Type} (f : A -> A -> A) (c : A) l :
  f c c = c -> Forall (eq c) l -> fold_left f l c = c.
Proof.
  intros Hf Hl. induction Hl as [|a l <- _ IH]; simpl; [reflexivity|].
  now rewrite Hf.
Qed.

Lemma np_max_const c l :
  0 < length l -> np_maximum c c = c -> Forall (eq c) l -> np_max l = Ok c.
Proof.
  intros Hlen Hf Hl. destruct Hl as [|a l <- Hl]; [simpl in Hlen; lia|].
  simpl. now rewrite fold_left_const.
Qed.

Lemma np_min_const c l :
  0 < length l -> np_minimum c c = c -> Forall (eq c) l -> np_min l = Ok c.
Proof.
  intros Hlen Hf Hl. destruct Hl as [|a l <- Hl]; [simpl in Hlen; lia|].
  simpl. now rewrite fold_left_const.
Qed.

Lemma Forall_eq_map {A B : Type} (f : A -> B) (c : B) l :
  (forall a, In a l -> f a = c) -> Forall (eq c) (map f l).
Proof.
  intros Hf. apply Forall_forall. intros b Hb.
  apply in_map_iff in Hb. destruct Hb as (a & <- & Ha).
  symmetry. now apply Hf.
Qed.

Lemma Forall_eq_repeat {A : Type} (c : A) l :
  Forall (eq c) l -> l = repeat c (length l).
Proof.
  intros Hl. induction Hl as [|a l <- _ IH]; simpl; [reflexivity|].
  now rewrite <- IH.
Qed.

Lemma mapM_const {A B : Type} (f : A -> result B) (c : B) l :
  (forall a, In a l -> f a = Ok c) -> mapM f l = Ok (repeat c (length l)).
Proof.
  induction l as [|a l IH]; intros Hf; simpl; [reflexivity|].
  rewrite (Hf a) by now left. simpl.
  rewrite IH by (intros a' Ha'; apply Hf; now right). reflexivity.
Qed.

Lemma gridstep_at_rest ds :
  positive_finite ds = true ->
  F64.mul F64.half (F64.div ds F64.zero) = F64.inf.
Proof. destruct ds as [| | |[] mz e]; try discriminate. reflexivity. Qed.

(** C10.  On a tracker with [dt] left at the default range [0, inf], at
    least one grid, every grid of a finite resolution above zero, at least
    one particle, every particle at rest and a magnetic field of zero at
    every particle: [vmax] is zero, nothing guards the division by it, every
    entry of [gridstep] is infinite, and [_adaptive_dt] returns an infinite
    [dt] for every particle, the fallback [np.max(gridstep)] being infinite
    too. *)
Theorem adaptive_dt_infinite_at_rest (self : ParticleTracker)
    (F : list fields)
    (Hdt : dt self = [F64.zero; F64.inf])
    (Hg : 0 < num_grids self)
    (Hds : forallb (fun grid => positive_finite (Grid.grid_resolution grid))
             (grids self) = true)
    (Hv : 0 < length (v self))
    (Hrest : forallb zero_vec (v self) = true)
    (HF : 0 < length F)
    (HB : forallb (fun f => zero_vec (Bx f, By f, Bz f)) F = true) :
  vmax self = Ok F64.zero
  /\ gridstep self = Ok (repeat F64.inf (num_grids self))
  /\ np_max (repeat F64.inf (num_grids self)) = Ok F64.inf
  /\ _adaptive_dt self F = Ok (repeat F64.inf (nparticles_tracked self)).
Proof.
  assert (Hvm : vmax self = Ok F64.zero).
  { unfold vmax. apply np_max_const;
      [now rewrite length_map | reflexivity |].
    apply Forall_eq_map. intros w Hw. apply norm_zero.
    rewrite forallb_forall in Hrest. now apply Hrest. }
  assert (Hgs : gridstep self = Ok (repeat F64.inf (num_grids self))).
  { unfold gridstep. rewrite Hvm. simpl. f_equal. unfold num_grids.
    rewrite <- (length_map (fun grid =>
      F64.mul F64.half (F64.div (Grid.grid_resolution grid) F64.zero))).
    apply Forall_eq_repeat, Forall_eq_map. intros grid Hin.
    apply gridstep_at_rest. rewrite forallb_forall in Hds. now apply Hds. }
  assert (Hmax : np_max (repeat F64.inf (num_grids self)) = Ok F64.inf).
  { apply np_max_const;
      [now rewrite repeat_length | reflexivity |].
    apply Forall_forall. intros a Ha. now apply repeat_spec in Ha. }
  assert (Hb : Bmag F = Ok F64.zero).
  { unfold Bmag. apply np_max_const;
      [now rewrite length_map | reflexivity |].
    apply Forall_eq_map. intros f Hf. apply norm_zero.
    rewrite forallb_forall in HB. now apply HB. }
  split; [exact Hvm|]. split; [exact Hgs|]. split; [exact Hmax|].
  unfold _adaptive_dt. rewrite Hdt. cbn [length Nat.eqb].
  rewrite Hgs. cbn [bind]. rewrite Hb. cbn [bind].
  unfold nth_error_or_raise. cbn [nth_error bind].
  rewrite (mapM_const _ F64.inf).
  - cbn [bind]. rewrite Hmax. cbn [bind]. rewrite length_seq. f_equal.
    rewrite <- (repeat_length F64.inf (nparticles_tracked self)) at 2.
    rewrite <- (length_map (fun d => if F64.eqb d F64.inf then F64.inf else d)).
    apply Forall_eq_repeat, Forall_eq_map.
    intros a Ha. apply repeat_spec in Ha. now subst a.
  - intros p _. apply np_min_const.
    + rewrite length_map. unfold candidates. rewrite length_app. simpl. lia.
    + reflexivity.
    + apply Forall_eq_map. intros c Hc.
      assert (Hinf : c = F64.inf).
      { unfold candidates in Hc. apply in_app_or in Hc.
        destruct Hc as [Hc | [<- | []]].
        - unfold grid_candidates in Hc. apply in_map_iff in Hc.
          destruct Hc as (i & <- & _). rewrite nth_repeat.
          now destruct (on_grid_at self p i).
        - reflexivity. }
      now subst c.
Qed.

Lemma adaptive_dt_infinite_at_rest_witness :
  _adaptive_dt Fixtures.at_rest [zero_fields; zero_fields]
  = Ok [F64.inf; F64.inf].
Proof.
  apply (adaptive_dt_infinite_at_rest Fixtures.at_rest
           [zero_fields; zero_fields]);
    try reflexivity; vm_compute; lia.
Defined.

(** ** The checks of the constructor *)

Lemma first_hd {A : Type} (l : list A) d : 0 < length l -> first l = Ok (hd d l).
Proof. destruct l; simpl; [lia | reflexivity]. Qed.

Lemma final_last {A : Type} (l : list A) d :
  0 < length l -> final l = Ok (last l d).
Proof.
  induction l as [|a l IH]; simpl; [lia|]. intros _.
  destruct l as [|b l]; [reflexivity|]. apply IH. simpl. lia.
Qed.

Lemma mapM_map {A B : Type} (f : A -> result B) (g : A -> B) l :
  (forall a, In a l -> f a = Ok (g a)) -> mapM f l = Ok (map g l).
Proof.
  induction l as [|a l IH]; intros Hf; simpl; [reflexivity|].
  rewrite (Hf a) by now left. simpl.
  rewrite IH by (intros a' Ha'; apply Hf; now right). reflexivity.
Qed.

Lemma well_shaped_spec arr :
  well_shaped arr = true <->
  0 < length arr
  /\ forall plane, In plane arr ->
       0 < length plane /\ forall row, In row plane -> 0 < length row.
Proof.
  unfold well_shaped. rewrite andb_true_iff, Nat.ltb_lt, forallb_forall.
  split; intros [H0 H1]; (split; [exact H0|]); intros plane Hp.
  - specialize (H1 plane Hp). rewrite andb_true_iff, Nat.ltb_lt in H1.
    destruct H1 as [H1 H2]. split; [exact H1|]. intros row Hr.
    rewrite forallb_forall in H2. apply Nat.ltb_lt. now apply H2.
  - destruct (H1 plane Hp) as [H2 H3].
    rewrite andb_true_iff, Nat.ltb_lt, forallb_forall. split; [exact H2|].
    intros row Hr. apply Nat.ltb_lt. now apply H3.
Qed.

(** The six faces of an array with no empty axis. *)
Lemma faces_well_shaped arr :
  well_shaped arr = true -> faces arr = Ok (six_faces arr).
Proof.
  intros Hw. apply well_shaped_spec in Hw. destruct Hw as [H0 H1].
  unfold faces.
  rewrite (first_hd arr [] H0), (final_last arr [] H0). simpl.
  rewrite (mapM_map first (hd []))
    by (intros plane Hp; apply first_hd, H1, Hp). simpl.
  rewrite (mapM_map final (fun plane => last plane []))
    by (intros plane Hp; apply final_last, H1, Hp). simpl.
  rewrite (mapM_map (mapM first) (map (hd F64.nan))).
  2:{ intros plane Hp. apply mapM_map. intros row Hr.
      apply first_hd. now apply (H1 plane Hp). }
  simpl.
  rewrite (mapM_map (mapM final) (map (fun row => last row F64.nan))).
  2:{ intros plane Hp. apply mapM_map. intros row Hr.
      apply final_last. now apply (H1 plane Hp). }
  reflexivity.
Qed.

Lemma hd_nth {A : Type} (l : list A) d : hd d l = nth 0 l d.
Proof. now destruct l. Qed.

Lemma last_nth {A : Type} (l : list A) d : last l d = nth (length l - 1) l d.
Proof.
  induction l as [|a l IH]; [reflexivity|].
  destruct l as [|b l]; [reflexivity|].
  change (last (a :: b :: l) d) with (last (b :: l) d). rewrite IH.
  simpl. now rewrite Nat.sub_0_r.
Qed.

Lemma In_nth_iff {A : Type} (l : list A) d a :
  In a l <-> exists i, i < length l /\ nth i l d = a.
Proof.
  split.
  - apply In_nth.
  - intros (i & Hi & <-). now apply nth_In.
Qed.

Section Faces.

Variable arr : array3.
Variables n0 n1 n2 : nat.
Hypothesis Hshape : has_shape arr n0 n1 n2.

Lemma plane_at i :
  i < n0 -> In (nth i arr []) arr /\ length (nth i arr []) = n1.
Proof.
  destruct Hshape as [H0 H1]. intros Hi.
  assert (Hin : In (nth i arr []) arr) by (apply nth_In; lia).
  split; [exact Hin | exact (proj1 (H1 _ Hin))].
Qed.

Lemma row_at i j :
  i < n0 -> j < n1 ->
  In (nth j (nth i arr []) []) (nth i arr [])
  /\ length (nth j (nth i arr []) []) = n2.
Proof.
  intros Hi Hj. destruct (plane_at i Hi) as [Hp Hlen].
  assert (Hin : In (nth j (nth i arr []) []) (nth i arr []))
    by (apply nth_In; lia).
  split; [exact Hin|]. destruct Hshape as [_ H1].
  exact (proj2 (H1 _ Hp) _ Hin).
Qed.

Lemma in_plane i0 a :
  i0 < n0 ->
  In a (concat (nth i0 arr [])) <->
  exists j k, j < n1 /\ k < n2 /\ entry arr i0 j k = a.
Proof.
  intros Hi. destruct (plane_at i0 Hi) as [Hp Hlen].
  rewrite in_concat. split.
  - intros (row & Hrow & Ha).
    apply (In_nth_iff _ []) in Hrow. destruct Hrow as (j & Hj & <-).
    rewrite Hlen in Hj. destruct (row_at i0 j Hi Hj) as [_ Hl].
    apply (In_nth_iff _ F64.nan) in Ha. destruct Ha as (k & Hk & <-).
    exists j, k. rewrite Hl in Hk. now repeat split.
  - intros (j & k & Hj & Hk & <-).
    destruct (row_at i0 j Hi Hj) as [Hin Hl].
    exists (nth j (nth i0 arr []) []). split; [exact Hin|].
    apply nth_In. lia.
Qed.

Lemma in_rows (sel : list (list float) -> list float) j0 a :
  j0 < n1 ->
  (forall plane, In plane arr -> sel plane = nth j0 plane []) ->
  In a (concat (map sel arr)) <->
  exists i k, i < n0 /\ k < n2 /\ entry arr i j0 k = a.
Proof.
  intros Hj Hsel. rewrite in_concat. split.
  - intros (row & Hrow & Ha). apply in_map_iff in Hrow.
    destruct Hrow as (plane & <- & Hp). rewrite (Hsel _ Hp) in Ha.
    apply (In_nth_iff _ []) in Hp. destruct Hp as (i & Hi & <-).
    destruct Hshape as [H0 _]. rewrite H0 in Hi.
    destruct (row_at i j0 Hi Hj) as [_ Hl].
    apply (In_nth_iff _ F64.nan) in Ha. destruct Ha as (k & Hk & <-).
    exists i, k. rewrite Hl in Hk. now repeat split.
  - intros (i & k & Hi & Hk & <-).
    destruct (plane_at i Hi) as [Hp _].
    destruct (row_at i j0 Hi Hj) as [_ Hl].
    exists (nth j0 (nth i arr []) []). split.
    + apply in_map_iff. exists (nth i arr []). split; [now apply Hsel | exact Hp].
    + apply nth_In. lia.
Qed.

Lemma in_columns (pick : list float -> float) k0 a :
  k0 < n2 ->
  (forall plane row, In plane arr -> In row plane ->
                     pick row = nth k0 row F64.nan) ->
  In a (concat (map (map pick) arr)) <->
  exists i j, i < n0 /\ j < n1 /\ entry arr i j k0 = a.
Proof.
  intros Hk Hpick. rewrite in_concat. split.
  - intros (l & Hl & Ha). apply in_map_iff in Hl.
    destruct Hl as (plane & <- & Hp). apply in_map_iff in Ha.
    destruct Ha as (row & <- & Hr). rewrite (Hpick _ _ Hp Hr).
    apply (In_nth_iff _ []) in Hp. destruct Hp as (i & Hi & <-).
    destruct Hshape as [H0 _]. rewrite H0 in Hi.
    destruct (plane_at i Hi) as [_ Hlen].
    apply (In_nth_iff _ []) in Hr. destruct Hr as (j & Hj & <-).
    rewrite Hlen in Hj. exists i, j. now repeat split.
  - intros (i & j & Hi & Hj & <-).
    destruct (plane_at i Hi) as [Hp _].
    destruct (row_at i j Hi Hj) as [Hr _].
    exists (map pick (nth i arr [])). split.
    + apply in_map_iff. exists (nth i arr []). now split.
    + apply in_map_iff. exists (nth j (nth i arr []) []).
      split; [exact (Hpick _ _ Hp Hr) | exact Hr].
Qed.

(** The entries of the whole array. *)
Lemma in_flatten3 a :
  In a (flatten3 arr) <->
  exists i j k, i < n0 /\ j < n1 /\ k < n2 /\ entry arr i j k = a.
Proof.
  unfold flatten3. rewrite in_concat. split.
  - intros (row & Hrow & Ha). apply in_concat in Hrow.
    destruct Hrow as (plane & Hp & Hr).
    apply (In_nth_iff _ []) in Hp. destruct Hp as (i & Hi & <-).
    destruct Hshape as [H0 _]. rewrite H0 in Hi.
    assert (Hin : In a (concat (nth i arr []))).
    { apply in_concat. now exists row. }
    apply (in_plane i a Hi) in Hin. destruct Hin as (j & k & Hjk).
    now exists i, j, k.
  - intros (i & j & k & Hi & Hj & Hk & <-).
    destruct (plane_at i Hi) as [Hp _].
    destruct (row_at i j Hi Hj) as [Hr Hl].
    exists (nth j (nth i arr []) []). split.
    + apply in_concat. now exists (nth i arr []).
    + apply nth_In. lia.
Qed.

End Faces.

(** The maximum of the maxima of several arrays is the maximum of all
    their entries. *)
Lemma max_of_maxes (fs : list (list (list float))) :
  0 < length fs ->
  (forall f, In f fs -> concat f <> [] /\ numbers (concat f)) ->
  exists em,
    (ms <- mapM (fun a => np_max (concat a)) fs ;; np_max ms) = Ok em
    /\ In em (concat (map (@concat float) fs))
    /\ forall c, In c (concat (map (@concat float) fs)) -> fle c em.
Proof.
  intros Hlen Hfs.
  destruct (mapM_total (fun a => np_max (concat a)) fs)
    as (ms & Hms & Hl & Hnth).
  { intros f Hf. apply np_max_total. now apply Hfs. }
  assert (Hface : forall i, i < length fs ->
            In (nth i ms F64.nan) (concat (nth i fs []))
            /\ forall c, In c (concat (nth i fs [])) ->
                         fle c (nth i ms F64.nan)).
  { intros i Hi.
    destruct (Hfs (nth i fs [])) as [Hne Hnum]; [now apply nth_In|].
    destruct (np_max_spec _ Hne Hnum) as (top & Ht & Hin & Hb).
    rewrite (Hnth i [] F64.nan Hi) in Ht. injection Ht as <-. now split. }
  assert (Hnum : numbers ms).
  { intros a Ha. apply (In_nth_iff _ F64.nan) in Ha.
    destruct Ha as (i & Hi & <-). rewrite Hl in Hi.
    destruct (Hfs (nth i fs [])) as [_ Hn]; [now apply nth_In|].
    apply Hn. now apply Hface. }
  destruct (np_max_spec ms) as (em & Hem & Hin & Hb);
    [apply length_pos_not_nil; lia | exact Hnum |].
  exists em. rewrite Hms. simpl. split; [exact Hem|]. split.
  - apply (In_nth_iff _ F64.nan) in Hin. destruct Hin as (i & Hi & <-).
    rewrite Hl in Hi. apply in_concat. exists (concat (nth i fs [])).
    split; [apply in_map, nth_In, Hi | now apply Hface].
  - intros c Hc. apply in_concat in Hc. destruct Hc as (l & Hl' & Hc).
    apply in_map_iff in Hl'. destruct Hl' as (f & <- & Hf).
    apply (In_nth_iff _ []) in Hf. destruct Hf as (i & Hi & <-).
    apply (fle_trans _ (nth i ms F64.nan)); [now apply Hface|].
    apply Hb, nth_In. lia.
Qed.

Section EdgeMax.

Variable arr : array3.
Variables n0 n1 n2 : nat.
Hypothesis Hshape : has_shape arr n0 n1 n2.
Hypothesis Hpos : 0 < n0 /\ 0 < n1 /\ 0 < n2.

Lemma shaped_well_shaped : well_shaped arr = true.
Proof.
  apply well_shaped_spec. destruct Hshape as [H0 H1].
  split; [lia|]. intros plane Hp. destruct (H1 plane Hp) as [H2 H3].
  split; [lia|]. intros row Hr. rewrite (H3 row Hr). lia.
Qed.

(** The entries of the six faces are the entries at the boundary. *)
Lemma in_faces a :
  In a (concat (map (@concat float) (six_faces arr))) <->
  exists i j k, i < n0 /\ j < n1 /\ k < n2
                /\ on_boundary n0 n1 n2 i j k /\ entry arr i j k = a.
Proof.
  destruct Hpos as (P0 & P1 & P2). pose proof Hshape as [H0 H1].
  unfold six_faces. simpl. rewrite !in_app_iff.
  rewrite hd_nth, last_nth, H0.
  rewrite (in_plane _ _ _ _ Hshape 0 a P0).
  rewrite (in_plane _ _ _ _ Hshape (n0 - 1) a) by lia.
  rewrite (in_rows _ _ _ _ Hshape (hd []) 0 a P1)
    by (intros; apply hd_nth).
  rewrite (in_rows _ _ _ _ Hshape (fun plane => last plane []) (n1 - 1) a)
    by (lia || (intros plane Hp; rewrite last_nth;
                now rewrite (proj1 (H1 plane Hp)))).
  rewrite (in_columns _ _ _ _ Hshape (hd F64.nan) 0 a P2)
    by (intros; apply hd_nth).
  rewrite (in_columns _ _ _ _ Hshape (fun row => last row F64.nan) (n2 - 1) a)
    by (lia || (intros plane row Hp Hr; rewrite last_nth;
                now rewrite (proj2 (H1 plane Hp) row Hr))).
  unfold on_boundary. split.
  - intros [(j & k & Hj & Hk & He) | [(j & k & Hj & Hk & He)
      | [(i & k & Hi & Hk & He) | [(i & k & Hi & Hk & He)
      | [(i & j & Hi & Hj & He) | [(i & j & Hi & Hj & He) | []]]]]]].
    + exists 0, j, k. repeat split; auto.
    + exists (n0 - 1), j, k. repeat split; auto; lia.
    + exists i, 0, k. repeat split; auto.
    + exists i, (n1 - 1), k. repeat split; auto; lia.
    + exists i, j, 0. repeat split; auto 7.
    + exists i, j, (n2 - 1). repeat split; auto; lia.
  - intros (i & j & k & Hi & Hj & Hk & Hb & He).
    destruct Hb as [-> | [Hb | [-> | [Hb | [-> | Hb]]]]].
    + left. now exists j, k.
    + right; left. exists j, k. replace (n0 - 1) with i by lia. auto.
    + right; right; left. now exists i, k.
    + right; right; right; left. exists i, k.
      replace (n1 - 1) with j by lia. auto.
    + right; right; right; right; left. now exists i, j.
    + right; right; right; right; right; left. exists i, j.
      replace (n2 - 1) with k by lia. auto.
Qed.

End EdgeMax.

Section EdgeMaxSpec.

Variable arr : array3.
Variables n0 n1 n2 : nat.
Hypothesis Hshape : has_shape arr n0 n1 n2.
Hypothesis Hpos : 0 < n0 /\ 0 < n1 /\ 0 < n2.
Hypothesis Hnum : numbers (flatten3 arr).

(** [edge_max] is the greatest entry at the boundary of the array. *)
Lemma edge_max_spec :
  exists em,
    edge_max arr = Ok em
    /\ (exists i j k, i < n0 /\ j < n1 /\ k < n2
                      /\ on_boundary n0 n1 n2 i j k /\ entry arr i j k = em)
    /\ (forall i j k, i < n0 -> j < n1 -> k < n2 ->
                      on_boundary n0 n1 n2 i j k ->
                      fle (entry arr i j k) em).
Proof.
  pose proof (in_faces arr n0 n1 n2 Hshape Hpos) as Hfaces.
  destruct Hpos as (P0 & P1 & P2).
  destruct (max_of_maxes (six_faces arr)) as (em & Hem & Hin & Hb).
  { simpl. lia. }
  { intros f Hf.
    assert (Hsub : forall a, In a (concat f) -> In a (flatten3 arr)).
    { intros a Ha. apply (in_flatten3 arr n0 n1 n2 Hshape).
      assert (Hu : exists i j k, i < n0 /\ j < n1 /\ k < n2
                     /\ on_boundary n0 n1 n2 i j k /\ entry arr i j k = a).
      { apply Hfaces. apply in_concat. exists (concat f).
        split; [now apply in_map | exact Ha]. }
      destruct Hu as (i & j & k & Hi & Hj & Hk & _ & He).
      now exists i, j, k. }
    split; [|intros a Ha; apply Hnum, Hsub, Ha].
    assert (Hex : exists a, In a (concat f)).
    { pose proof Hshape as [H0 H1].
      simpl in Hf.
      destruct Hf as [<- | [<- | [<- | [<- | [<- | [<- | []]]]]]].
      - exists (entry arr 0 0 0). rewrite hd_nth.
        apply (in_plane arr n0 n1 n2 Hshape 0 _ P0). now exists 0, 0.
      - exists (entry arr (n0 - 1) 0 0). rewrite last_nth, H0.
        apply (in_plane arr n0 n1 n2 Hshape (n0 - 1)); [lia|].
        now exists 0, 0.
      - exists (entry arr 0 0 0).
        apply (in_rows arr n0 n1 n2 Hshape (hd []) 0 _ P1);
          [intros; apply hd_nth | now exists 0, 0].
      - exists (entry arr 0 (n1 - 1) 0).
        apply (in_rows arr n0 n1 n2 Hshape
                 (fun plane => last plane []) (n1 - 1)); [lia | |].
        + intros plane Hp. rewrite last_nth.
          now rewrite (proj1 (H1 plane Hp)).
        + now exists 0, 0.
      - exists (entry arr 0 0 0).
        apply (in_columns arr n0 n1 n2 Hshape (hd F64.nan) 0 _ P2);
          [intros; apply hd_nth | now exists 0, 0].
      - exists (entry arr 0 0 (n2 - 1)).
        apply (in_columns arr n0 n1 n2 Hshape
                 (fun row => last row F64.nan) (n2 - 1)); [lia | |].
        + intros plane row Hp Hr. rewrite last_nth.
          now rewrite (proj2 (H1 plane Hp) row Hr).
        + now exists 0, 0. }
    destruct Hex as [a Ha]. intros Heq. now rewrite Heq in Ha. }
  exists em. split; [|split].
  - unfold edge_max.
    rewrite (faces_well_shaped arr
               (shaped_well_shaped arr n0 n1 n2 Hshape (conj P0 (conj P1 P2)))).
    exact Hem.
  - now apply Hfaces.
  - intros i j k Hi Hj Hk Hbd. apply Hb, Hfaces. now exists i, j, k.
Qed.

(** [np.max(arr)] is the greatest entry of the array. *)
Lemma array_max_spec :
  exists mx,
    np_max (flatten3 arr) = Ok mx
    /\ (exists i j k, i < n0 /\ j < n1 /\ k < n2 /\ entry arr i j k = mx)
    /\ (forall i j k, i < n0 -> j < n1 -> k < n2 ->
                      fle (entry arr i j k) mx).
Proof.
  destruct Hpos as (P0 & P1 & P2).
  destruct (np_max_spec (flatten3 arr)) as (mx & Hmx & Hin & Hb).
  { intros Heq.
    assert (Hin : In (entry arr 0 0 0) (flatten3 arr)).
    { apply (in_flatten3 arr n0 n1 n2 Hshape). now exists 0, 0, 0. }
    now rewrite Heq in Hin. }
  { exact Hnum. }
  exists mx. split; [exact Hmx|]. split.
  - now apply (in_flatten3 arr n0 n1 n2 Hshape).
  - intros i j k Hi Hj Hk. apply Hb.
    apply (in_flatten3 arr n0 n1 n2 Hshape). now exists i, j, k.
Qed.

End EdgeMaxSpec.

(** *** Absolute values *)

Lemma flatten3_abs3 values :
  flatten3 (abs3 values) = map F64.abs (flatten3 values).
Proof. unfold flatten3, abs3. now rewrite <- !concat_map. Qed.

Lemma nth_map_default {A B : Type} (f : A -> B) l i d d' :
  f d = d' -> nth i (map f l) d' = f (nth i l d).
Proof. intros <-. apply map_nth. Qed.

Lemma entry_abs3 values i j k :
  entry (abs3 values) i j k = F64.abs (entry values i j k).
Proof.
  unfold entry, abs3.
  rewrite (nth_map_default (map (map F64.abs)) values i [] []) by reflexivity.
  rewrite (nth_map_default (map F64.abs) _ j [] []) by reflexivity.
  now rewrite (nth_map_default F64.abs _ k F64.nan F64.nan).
Qed.

Lemma has_shape_abs3 values n0 n1 n2 :
  has_shape values n0 n1 n2 -> has_shape (abs3 values) n0 n1 n2.
Proof.
  intros [H0 H1]. unfold abs3. split; [now rewrite length_map|].
  intros plane Hp. apply in_map_iff in Hp. destruct Hp as (p & <- & Hp).
  destruct (H1 p Hp) as [H2 H3]. split; [now rewrite length_map|].
  intros row Hr. apply in_map_iff in Hr. destruct Hr as (r & <- & Hr).
  rewrite length_map. now apply H3.
Qed.

Lemma numbers_abs3 values :
  forallb F64.isfinite (flatten3 values) = true ->
  numbers (flatten3 (abs3 values)).
Proof.
  intros Hfin a Ha. rewrite flatten3_abs3 in Ha. apply in_map_iff in Ha.
  destruct Ha as (b & <- & Hb). rewrite forallb_forall in Hfin.
  specialize (Hfin b Hb). now destruct b.
Qed.

(** *** One required quantity *)

Lemma check_quantity_non_finite grid rq values :
  Grid.getitem grid rq = Ok values ->
  forallb F64.isfinite (flatten3 values) = false ->
  check_quantity grid rq = Raise ValueError.
Proof. intros Hv Hf. unfold check_quantity. now rewrite Hv; simpl; rewrite Hf. Qed.

Lemma check_quantity_finite grid rq values unit n0 n1 n2 :
  Grid.getitem grid rq = Ok values ->
  lookup rq (Grid.recognized_quantities grid) = Ok unit ->
  has_shape values n0 n1 n2 -> 0 < n0 /\ 0 < n1 /\ 0 < n2 ->
  forallb F64.isfinite (flatten3 values) = true ->
  exists em mx,
    edge_max (abs3 values) = Ok em
    /\ (exists i j k, i < n0 /\ j < n1 /\ k < n2
                      /\ on_boundary n0 n1 n2 i j k
                      /\ F64.abs (entry values i j k) = em)
    /\ (forall i j k, i < n0 -> j < n1 -> k < n2 ->
                      on_boundary n0 n1 n2 i j k ->
                      fle (F64.abs (entry values i j k)) em)
    /\ np_max (flatten3 (abs3 values)) = Ok mx
    /\ (exists i j k, i < n0 /\ j < n1 /\ k < n2
                      /\ F64.abs (entry values i j k) = mx)
    /\ (forall i j k, i < n0 -> j < n1 -> k < n2 ->
                      fle (F64.abs (entry values i j k)) mx)
    /\ check_quantity grid rq
       = Ok (if F64.gtb em (F64.mul F64.milli mx)
             then [mkWarning rq em unit] else []).
Proof.
  intros Hv Hu Hs Hp Hf.
  pose proof (has_shape_abs3 values n0 n1 n2 Hs) as Hs'.
  pose proof (numbers_abs3 values Hf) as Hn.
  destruct (edge_max_spec (abs3 values) n0 n1 n2 Hs' Hp Hn)
    as (em & Hem & Hin & Hb).
  destruct (array_max_spec (abs3 values) n0 n1 n2 Hs' Hp Hn)
    as (mx & Hmx & Hin' & Hb').
  exists em, mx. split; [exact Hem|].
  split; [|split; [|split; [exact Hmx|split; [|split]]]].
  - destruct Hin as (i & j & k & Hi & Hj & Hk & Hbd & He).
    exists i, j, k. now rewrite <- entry_abs3.
  - intros i j k Hi Hj Hk Hbd. rewrite <- entry_abs3. now apply Hb.
  - destruct Hin' as (i & j & k & Hi & Hj & Hk & He).
    exists i, j, k. now rewrite <- entry_abs3.
  - intros i j k Hi Hj Hk. rewrite <- entry_abs3. now apply Hb'.
  - unfold check_quantity. rewrite Hv. cbn [bind]. rewrite Hf. cbn [negb].
    fold (abs3 values). rewrite Hem. cbn [bind]. rewrite Hmx. cbn [bind].
    destruct (F64.gtb em (F64.mul F64.milli mx)); [|reflexivity].
    now rewrite Hu.
Qed.

(** *** The loops over the quantities and over the grids *)

Lemma check_quantities_spec grid rqs :
  (forall rq, In rq rqs -> passes_or_rejects grid rq) ->
  ((forall rq, In rq rqs -> check_quantity grid rq <> Raise ValueError) ->
   check_quantities grid rqs
   = (flat_map (fun rq => emitted (check_quantity grid rq)) rqs, Ok tt))
  /\ ((exists rq, In rq rqs /\ check_quantity grid rq = Raise ValueError) ->
      snd (check_quantities grid rqs) = Raise ValueError).
Proof.
  induction rqs as [|rq rqs IH]; intros Hall.
  - split; [reflexivity | intros (rq & [] & _)].
  - destruct IH as [IHok IHbad].
    { intros rq' Hrq'. apply Hall. now right. }
    simpl. destruct (Hall rq (or_introl eq_refl)) as [[ws Hws] | Hraise].
    + rewrite Hws. simpl. split.
      * intros Hok. rewrite IHok; [reflexivity|].
        intros rq' Hrq'. apply Hok. now right.
      * intros (rq' & [<- | Hin] & Hr); [congruence|].
        destruct (check_quantities grid rqs) as [ws' r].
        exact (IHbad (ex_intro _ rq' (conj Hin Hr))).
    + rewrite Hraise. split.
      * intros Hok. exfalso. apply (Hok rq); [now left | exact Hraise].
      * reflexivity.
Qed.

Lemma check_quantities_only_ValueError grid rqs e :
  (forall rq, In rq rqs -> passes_or_rejects grid rq) ->
  snd (check_quantities grid rqs) = Raise e -> e = ValueError.
Proof.
  induction rqs as [|rq rqs IH]; intros Hall; simpl; [discriminate|].
  destruct (Hall rq (or_introl eq_refl)) as [[ws Hws] | Hraise].
  - rewrite Hws. destruct (check_quantities grid rqs) as [ws' r]. simpl.
    apply IH. intros rq' Hrq'. apply Hall. now right.
  - rewrite Hraise. simpl. congruence.
Qed.

Lemma validate_grids_spec gs gs' rqs :
  Forall2 (fun g g' => Grid.require_quantities g (Some rqs) true = Ok g')
    gs gs' ->
  (forall g' rq, In g' gs' -> In rq rqs -> passes_or_rejects g' rq) ->
  ((forall g' rq, In g' gs' -> In rq rqs ->
                  check_quantity g' rq <> Raise ValueError) ->
   validate_grids gs (Some rqs)
   = (flat_map (fun g' =>
                  flat_map (fun rq => emitted (check_quantity g' rq)) rqs)
        gs', Ok gs'))
  /\ ((exists g' rq, In g' gs' /\ In rq rqs
                     /\ check_quantity g' rq = Raise ValueError) ->
      snd (validate_grids gs (Some rqs)) = Raise ValueError).
Proof.
  induction 1 as [|g g' gs gs' Hreq Hrest IH]; intros Hall.
  - split; [reflexivity | intros (g' & rq & [] & _)].
  - destruct IH as [IHok IHbad].
    { intros g0 rq Hg0. apply Hall. now right. }
    destruct (check_quantities_spec g' rqs) as [Cok Cbad].
    { intros rq Hrq. apply Hall; [now left | exact Hrq]. }
    simpl. rewrite Hreq.
    destruct (check_quantities g' rqs) as [ws r] eqn:E. split.
    + intros Hok.
      assert (Hpair : (ws, r)
                = (flat_map (fun rq => emitted (check_quantity g' rq)) rqs,
                   Ok tt))
        by (apply Cok; intros rq Hrq; apply Hok; [now left | exact Hrq]).
      injection Hpair as -> ->.
      rewrite IHok by (intros g0 rq Hg0; apply Hok; now right).
      reflexivity.
    + intros (g0 & rq & [<- | Hg0] & Hrq & Hr).
      * assert (Hsnd : snd (ws, r) = Raise ValueError)
          by (apply Cbad; now exists rq).
        simpl in Hsnd. subst r. reflexivity.
      * destruct r as [[]|e].
        -- destruct (validate_grids gs (Some rqs)) as [ws' r'].
           simpl. assert (Hsnd : snd (ws', r') = Raise ValueError).
           { apply IHbad. now exists g0, rq. }
           simpl in Hsnd. now subst r'.
        -- simpl. f_equal.
           apply (check_quantities_only_ValueError g' rqs);
             [intros rq' Hrq'; apply Hall; [now left | exact Hrq']|].
           now rewrite E.
Qed.

Lemma shape_ok_has_shape arr n0 n1 n2 :
  shape_ok arr n0 n1 n2 = true -> has_shape arr n0 n1 n2.
Proof.
  unfold shape_ok, has_shape.
  rewrite andb_true_iff, Nat.eqb_eq, forallb_forall.
  intros [H0 H1]. split; [exact H0|]. intros plane Hp.
  specialize (H1 plane Hp). rewrite andb_true_iff, Nat.eqb_eq in H1.
  destruct H1 as [H1 H2]. split; [exact H1|]. intros row Hr.
  rewrite forallb_forall in H2. apply Nat.eqb_eq. now apply H2.
Qed.

(** *** Passes that raise

    A pass over one required quantity can end in two exceptions: the
    [ValueError] of the check for finite values, and the [KeyError] of
    [grid.recognized_quantities[rq]], which is looked up for the text of
    the warning. *)

Lemma lookup_raises {A : Type} key (d : list (string * A)) e :
  lookup key d = Raise e -> e = KeyError.
Proof.
  induction d as [|[k a] d IH]; simpl; [congruence|].
  destruct (String.eqb key k); [discriminate | exact IH].
Qed.

Lemma check_quantity_finite_any grid rq values n0 n1 n2 :
  Grid.getitem grid rq = Ok values ->
  has_shape values n0 n1 n2 -> 0 < n0 /\ 0 < n1 /\ 0 < n2 ->
  forallb F64.isfinite (flatten3 values) = true ->
  exists em mx,
    edge_max (abs3 values) = Ok em
    /\ (exists i j k, i < n0 /\ j < n1 /\ k < n2
                      /\ on_boundary n0 n1 n2 i j k
                      /\ F64.abs (entry values i j k) = em)
    /\ (forall i j k, i < n0 -> j < n1 -> k < n2 ->
                      on_boundary n0 n1 n2 i j k ->
                      fle (F64.abs (entry values i j k)) em)
    /\ np_max (flatten3 (abs3 values)) = Ok mx
    /\ (exists i j k, i < n0 /\ j < n1 /\ k < n2
                      /\ F64.abs (entry values i j k) = mx)
    /\ (forall i j k, i < n0 -> j < n1 -> k < n2 ->
                      fle (F64.abs (entry values i j k)) mx)
    /\ check_quantity grid rq
       = if F64.gtb em (F64.mul F64.milli mx)
         then unit <- lookup rq (Grid.recognized_quantities grid) ;;
              Ok [mkWarning rq em unit]
         else Ok [].
Proof.
  intros Hv Hs Hp Hf.
  pose proof (has_shape_abs3 values n0 n1 n2 Hs) as Hs'.
  pose proof (numbers_abs3 values Hf) as Hn.
  destruct (edge_max_spec (abs3 values) n0 n1 n2 Hs' Hp Hn)
    as (em & Hem & Hin & Hb).
  destruct (array_max_spec (abs3 values) n0 n1 n2 Hs' Hp Hn)
    as (mx & Hmx & Hin' & Hb').
  exists em, mx. split; [exact Hem|].
  split; [|split; [|split; [exact Hmx|split; [|split]]]].
  - destruct Hin as (i & j & k & Hi & Hj & Hk & Hbd & He).
    exists i, j, k. now rewrite <- entry_abs3.
  - intros i j k Hi Hj Hk Hbd. rewrite <- entry_abs3. now apply Hb.
  - destruct Hin' as (i & j & k & Hi & Hj & Hk & He).
    exists i, j, k. now rewrite <- entry_abs3.
  - intros i j k Hi Hj Hk. rewrite <- entry_abs3. now apply Hb'.
  - unfold check_quantity. rewrite Hv. cbn [bind]. rewrite Hf. cbn [negb].
    fold (abs3 values). rewrite Hem. cbn [bind]. rewrite Hmx. cbn [bind].
    reflexivity.
Qed.

Lemma check_quantity_raises grid rq values n0 n1 n2 e :
  Grid.getitem grid rq = Ok values ->
  has_shape values n0 n1 n2 -> 0 < n0 /\ 0 < n1 /\ 0 < n2 ->
  check_quantity grid rq = Raise e ->
  (e = ValueError /\ forallb F64.isfinite (flatten3 values) = false)
  \/ (e = KeyError /\ forallb F64.isfinite (flatten3 values) = true
      /\ forall unit, lookup rq (Grid.recognized_quantities grid) <> Ok unit).
Proof.
  intros Hv Hs Hp Hr.
  destruct (forallb F64.isfinite (flatten3 values)) eqn:Hf.
  - right.
    destruct (check_quantity_finite_any grid rq values n0 n1 n2 Hv Hs Hp Hf)
      as (em & mx & _ & _ & _ & _ & _ & _ & Hc).
    rewrite Hc in Hr.
    destruct (F64.gtb em (F64.mul F64.milli mx)); [|discriminate].
    destruct (lookup rq (Grid.recognized_quantities grid)) as [u|e'] eqn:El;
      simpl in Hr; [discriminate|].
    injection Hr as <-. rewrite (lookup_raises _ _ _ El).
    repeat split. intros unit. discriminate.
  - left. rewrite (check_quantity_non_finite grid rq values Hv Hf) in Hr.
    injection Hr as <-. now split.
Qed.

Lemma check_quantities_outcome grid rqs :
  ((forall rq, In rq rqs -> exists ws, check_quantity grid rq = Ok ws) ->
   check_quantities grid rqs
   = (flat_map (fun rq => emitted (check_quantity grid rq)) rqs, Ok tt))
  /\ (forall e, snd (check_quantities grid rqs) = Raise e ->
        exists rq, In rq rqs /\ check_quantity grid rq = Raise e)
  /\ ((exists rq e, In rq rqs /\ check_quantity grid rq = Raise e) ->
      exists e, snd (check_quantities grid rqs) = Raise e).
Proof.
  induction rqs as [|rq rqs (IHok & IHraise & IHbad)].
  - split; [reflexivity|]. split; [discriminate|].
    intros (rq & e & [] & _).
  - simpl. destruct (check_quantity grid rq) as [ws|e0] eqn:E.
    + destruct (check_quantities grid rqs) as [ws' r] eqn:Er. simpl.
      split; [|split].
      * intros Hall.
        assert (Hpair : (ws', r)
                  = (flat_map (fun rq => emitted (check_quantity grid rq))
                       rqs, Ok tt))
          by (apply IHok; intros rq' Hrq'; apply Hall; now right).
        now injection Hpair as -> ->.
      * intros e He. destruct (IHraise e He) as (rq' & Hin & Hr).
        exists rq'. split; [now right | exact Hr].
      * intros (rq' & e & [<- | Hin] & Hr); [congruence|].
        apply IHbad. now exists rq', e.
    + simpl. split; [|split].
      * intros Hall. destruct (Hall rq (or_introl eq_refl)) as [ws Hws].
        congruence.
      * intros e [= <-]. exists rq. split; [now left | exact E].
      * intros _. now exists e0.
Qed.

Lemma validate_grids_outcome gs gs' rqs :
  Forall2 (fun g g' => Grid.require_quantities g (Some rqs) true = Ok g')
    gs gs' ->
  ((forall g' rq, In g' gs' -> In rq rqs ->
                  exists ws, check_quantity g' rq = Ok ws) ->
   validate_grids gs (Some rqs)
   = (flat_map (fun g' =>
                  flat_map (fun rq => emitted (check_quantity g' rq)) rqs)
        gs', Ok gs'))
  /\ (forall e, snd (validate_grids gs (Some rqs)) = Raise e ->
        exists g' rq, In g' gs' /\ In rq rqs
                      /\ check_quantity g' rq = Raise e)
  /\ ((exists g' rq e, In g' gs' /\ In rq rqs
                       /\ check_quantity g' rq = Raise e) ->
      exists e, snd (validate_grids gs (Some rqs)) = Raise e).
Proof.
  induction 1 as [|g g' gs gs' Hreq Hrest (IHok & IHraise & IHbad)].
  - split; [reflexivity|]. split; [discriminate|].
    intros (g' & rq & e & [] & _).
  - destruct (check_quantities_outcome g' rqs) as (Cok & Craise & Cbad).
    simpl. rewrite Hreq.
    destruct (check_quantities g' rqs) as [ws r] eqn:E.
    destruct r as [[]|e0].
    + destruct (validate_grids gs (Some rqs)) as [ws' r'] eqn:Ev.
      simpl in *. split; [|split].
      * intros Hall.
        assert (Hpair : (ws, Ok tt)
                  = (flat_map (fun rq => emitted (check_quantity g' rq)) rqs,
                     Ok tt))
          by (apply Cok; intros rq Hrq; apply Hall; [now left | exact Hrq]).
        injection Hpair as ->.
        assert (Hrest' : (ws', r')
                  = (flat_map
                       (fun g' =>
                          flat_map (fun rq => emitted (check_quantity g' rq))
                            rqs) gs', Ok gs'))
          by (apply IHok; intros g0 rq Hg0; apply Hall; now right).
        now injection Hrest' as -> ->.
      * intros e He. destruct r' as [gs''|e']; [discriminate|].
        simpl in He. injection He as <-.
        destruct (IHraise e' eq_refl) as (g0 & rq & Hg0 & Hrq & Hr).
        exists g0, rq. split; [now right | now split].
      * intros (g0 & rq & e & [<- | Hg0] & Hrq & Hr).
        -- destruct Cbad as [e' He']; [now exists rq, e | discriminate].
        -- destruct IHbad as [e' He']; [now exists g0, rq, e|].
           subst r'. now exists e'.
    + simpl in *. split; [|split].
      * intros Hall.
        assert (Hpair : (ws, Raise e0)
                  = (flat_map (fun rq => emitted (check_quantity g' rq)) rqs,
                     Ok tt))
          by (apply Cok; intros rq Hrq; apply Hall; [now left | exact Hrq]).
        discriminate.
      * intros e [= <-]. destruct (Craise e0 eq_refl) as (rq & Hrq & Hr).
        exists g', rq. split; [now left | now split].
      * intros _. now exists e0.
Qed.

(** Both forms of the [grids] argument end in the same loop over the
    grids. *)
Lemma init_validates arg gs rqs verbose :
  arg = GridIterable gs \/ (exists grid, arg = OneGrid grid /\ gs = [grid]) ->
  __init__ arg (Some rqs) verbose
  = (fst (validate_grids gs (Some rqs)),
     gs' <- snd (validate_grids gs (Some rqs)) ;;
     Ok (mkTracker gs' verbose false F64.zero F64.zero 0 None [] ""
           0 [] [] [])).
Proof.
  intros [-> | (grid & -> & ->)]; unfold __init__;
    now destruct (validate_grids _ (Some rqs)).
Qed.

(** C7 (the code departs from the claim where a required key is not a
    recognized one).  Let the constructor be given one grid or a collection
    of grids on which [require_quantities] returns normally, every required
    quantity being an array with no empty axis.  For every grid and every
    required quantity: when the array holds a NaN or an infinity the pass
    raises [ValueError]; otherwise [edge_max] is the largest absolute value
    on the six faces, [np.max(arr)] is the largest absolute value of the
    array, and when [edge_max] is not above [1e-3] times that maximum the
    pass emits nothing and goes on; when it is above, the pass emits the
    warning and goes on if the key is a recognized one, and raises
    [KeyError] with no warning emitted if it is not.  When every pass ends
    normally the constructor builds the tracker and has emitted exactly
    the warnings of the passes, in order; when some pass raises, the
    constructor raises the exception of a pass, [ValueError] or [KeyError].
    With recognized keys only, the constructor builds the tracker when every
    required array is finite and raises [ValueError] when one is not. *)
Theorem init_checks_required_quantities
    (arg : grids_arg) (gs gs' : list AbstractGrid) (rqs : list string)
    (verbose : bool)
    (Harg : arg = GridIterable gs
            \/ (exists grid, arg = OneGrid grid /\ gs = [grid]))
    (Hreq : Forall2
              (fun g g' => Grid.require_quantities g (Some rqs) true = Ok g')
              gs gs')
    (Hq : forall g' rq, In g' gs' -> In rq rqs ->
            exists values n0 n1 n2,
              Grid.getitem g' rq = Ok values
              /\ has_shape values n0 n1 n2
              /\ 0 < n0 /\ 0 < n1 /\ 0 < n2) :
  (forall g' rq values n0 n1 n2,
      In g' gs' -> In rq rqs ->
      Grid.getitem g' rq = Ok values ->
      has_shape values n0 n1 n2 -> 0 < n0 /\ 0 < n1 /\ 0 < n2 ->
      (forallb F64.isfinite (flatten3 values) = false ->
       check_quantity g' rq = Raise ValueError)
      /\ (forallb F64.isfinite (flatten3 values) = true ->
          exists em mx,
            edge_max (abs3 values) = Ok em
            /\ (exists i j k, i < n0 /\ j < n1 /\ k < n2
                              /\ on_boundary n0 n1 n2 i j k
                              /\ F64.abs (entry values i j k) = em)
            /\ (forall i j k, i < n0 -> j < n1 -> k < n2 ->
                              on_boundary n0 n1 n2 i j k ->
                              fle (F64.abs (entry values i j k)) em)
            /\ np_max (flatten3 (abs3 values)) = Ok mx
            /\ (exists i j k, i < n0 /\ j < n1 /\ k < n2
                              /\ F64.abs (entry values i j k) = mx)
            /\ (forall i j k, i < n0 -> j < n1 -> k < n2 ->
                              fle (F64.abs (entry values i j k)) mx)
            /\ (F64.gtb em (F64.mul F64.milli mx) = false ->
                check_quantity g' rq = Ok [])
            /\ (F64.gtb em (F64.mul F64.milli mx) = true ->
                (forall unit,
                    lookup rq (Grid.recognized_quantities g') = Ok unit ->
                    check_quantity g' rq = Ok [mkWarning rq em unit])
                /\ ((forall unit,
                        lookup rq (Grid.recognized_quantities g') <> Ok unit) ->
                    check_quantity g' rq = Raise KeyError))))
  /\ ((forall g' rq, In g' gs' -> In rq rqs ->
                     exists ws, check_quantity g' rq = Ok ws) ->
      exists t,
        __init__ arg (Some rqs) verbose
        = (flat_map (fun g' =>
                       flat_map (fun rq => emitted (check_quantity g' rq)) rqs)
             gs', Ok t)
        /\ grids t = gs' /\ _has_run t = false)
  /\ ((exists g' rq e, In g' gs' /\ In rq rqs
                       /\ check_quantity g' rq = Raise e) ->
      exists g' rq e,
        In g' gs' /\ In rq rqs /\ check_quantity g' rq = Raise e
        /\ snd (__init__ arg (Some rqs) verbose) = Raise e
        /\ (e = ValueError \/ e = KeyError))
  /\ ((forall g' rq, In g' gs' -> In rq rqs ->
                     exists unit,
                       lookup rq (Grid.recognized_quantities g') = Ok unit) ->
      ((forall g' rq values,
           In g' gs' -> In rq rqs -> Grid.getitem g' rq = Ok values ->
           forallb F64.isfinite (flatten3 values) = true) ->
       exists t,
         __init__ arg (Some rqs) verbose
         = (flat_map (fun g' =>
                        flat_map (fun rq => emitted (check_quantity g' rq))
                          rqs)
              gs', Ok t)
         /\ grids t = gs' /\ _has_run t = false)
      /\ ((exists g' rq values,
              In g' gs' /\ In rq rqs /\ Grid.getitem g' rq = Ok values
              /\ forallb F64.isfinite (flatten3 values) = false) ->
          snd (__init__ arg (Some rqs) verbose) = Raise ValueError)).
Proof.
  destruct (validate_grids_outcome gs gs' rqs Hreq) as (Vok & Vraise & Vbad).
  pose proof (init_validates arg gs rqs verbose Harg) as Hinit.
  assert (Hbuilt :
            (forall g' rq, In g' gs' -> In rq rqs ->
                           exists ws, check_quantity g' rq = Ok ws) ->
            exists t,
              __init__ arg (Some rqs) verbose
              = (flat_map
                   (fun g' =>
                      flat_map (fun rq => emitted (check_quantity g' rq)) rqs)
                   gs', Ok t)
              /\ grids t = gs' /\ _has_run t = false).
  { intros Hall. rewrite Hinit, (Vok Hall). simpl.
    eexists. split; [reflexivity|]. now split. }
  split; [|split; [exact Hbuilt|split]].
  - intros g' rq values n0 n1 n2 Hg Hrq Hv Hs Hp. split.
    + now apply check_quantity_non_finite.
    + intros Hf.
      destruct (check_quantity_finite_any g' rq values n0 n1 n2 Hv Hs Hp Hf)
        as (em & mx & H1 & H2 & H3 & H4 & H5 & H6 & H7).
      exists em, mx. do 6 (split; [assumption|]). rewrite H7. split.
      * now intros ->.
      * intros ->. split.
        -- now intros unit ->.
        -- intros Hno.
           destruct (lookup rq (Grid.recognized_quantities g')) as [u|e] eqn:El.
           ++ now destruct (Hno u).
           ++ simpl. now rewrite (lookup_raises _ _ _ El).
  - intros Hsome. destruct (Vbad Hsome) as [e He].
    destruct (Vraise e He) as (g' & rq & Hg & Hrq & Hr).
    exists g', rq, e. repeat (split; [assumption|]). split.
    + rewrite Hinit. simpl. now rewrite He.
    + destruct (Hq g' rq Hg Hrq) as (values & n0 & n1 & n2 & Hv & Hs & Hp).
      destruct (check_quantity_raises g' rq values n0 n1 n2 e Hv Hs Hp Hr)
        as [[-> _] | [-> _]]; auto.
  - intros Hrec.
    assert (Hall : forall g' rq, In g' gs' -> In rq rqs ->
                                 passes_or_rejects g' rq).
    { intros g' rq Hg Hrq.
      destruct (Hq g' rq Hg Hrq) as (values & n0 & n1 & n2 & Hv & Hs & Hp).
      destruct (Hrec g' rq Hg Hrq) as [unit Hu].
      destruct (forallb F64.isfinite (flatten3 values)) eqn:Hf.
      - left.
        destruct (check_quantity_finite g' rq values unit n0 n1 n2
                    Hv Hu Hs Hp Hf)
          as (em & mx & _ & _ & _ & _ & _ & _ & Hc).
        eexists. exact Hc.
      - right. now apply (check_quantity_non_finite g' rq values). }
    split.
    + intros Hfin. apply Hbuilt. intros g' rq Hg Hrq.
      destruct (Hq g' rq Hg Hrq) as (values & n0 & n1 & n2 & Hv & Hs & Hp).
      destruct (Hrec g' rq Hg Hrq) as [unit Hu].
      destruct (check_quantity_finite g' rq values unit n0 n1 n2
                  Hv Hu Hs Hp (Hfin g' rq values Hg Hrq Hv))
        as (em & mx & _ & _ & _ & _ & _ & _ & Hc).
      eexists. exact Hc.
    + intros (g' & rq & values & Hg & Hrq & Hv & Hf).
      destruct (validate_grids_spec gs gs' rqs Hreq Hall) as [_ Vnan].
      rewrite Hinit. simpl. rewrite Vnan; [reflexivity|].
      exists g', rq. repeat split; try assumption.
      now apply (check_quantity_non_finite g' rq values).
Qed.

Lemma init_checks_required_quantities_witness :
  (exists t,
      __init__ (GridIterable [Fixtures.charged_grid])
        (Some ["E_x"; "B_z"]%string) true
      = ([mkWarning "B_z" F64.one "T"], Ok t)
      /\ grids t = [Fixtures.charged_grid])
  /\ check_quantity Fixtures.custom_grid "vorticity" = Raise KeyError
  /\ snd (__init__ (OneGrid Fixtures.custom_grid)
            (Some ["vorticity"]%string) true) = Raise KeyError.
Proof.
  split.
  - destruct (init_checks_required_quantities
                (GridIterable [Fixtures.charged_grid])
                [Fixtures.charged_grid] [Fixtures.charged_grid]
                ["E_x"; "B_z"]%string true) as (_ & _ & _ & Hrec).
    + now left.
    + repeat constructor.
    + intros g' rq [<- | []] [<- | [<- | []]].
      * exists (Fixtures.shell F64.zero F64.one), 3, 3, 3.
        split; [reflexivity|].
        split; [now apply shape_ok_has_shape | lia].
      * exists (Fixtures.full F64.one), 2, 2, 2.
        split; [reflexivity|].
        split; [now apply shape_ok_has_shape | lia].
    + destruct Hrec as [Hbuilt _].
      * intros g' rq [<- | []] [<- | [<- | []]]; eexists; reflexivity.
      * destruct Hbuilt as (t & Ht & Hg & _).
        -- intros g' rq values [<- | []] [<- | [<- | []]] [= <-]; reflexivity.
        -- exists t. split; [|exact Hg]. rewrite Ht. reflexivity.
  - destruct (init_checks_required_quantities
                (OneGrid Fixtures.custom_grid)
                [Fixtures.custom_grid] [Fixtures.custom_grid]
                ["vorticity"]%string true) as (Hpass & _ & Hraise & _).
    + right. now exists Fixtures.custom_grid.
    + repeat constructor.
    + intros g' rq [<- | []] [<- | []].
      exists (Fixtures.full F64.one), 2, 2, 2.
      split; [reflexivity|].
      split; [now apply shape_ok_has_shape | lia].
    + assert (Hkey : check_quantity Fixtures.custom_grid "vorticity"
                     = Raise KeyError).
      { destruct (Hpass Fixtures.custom_grid "vorticity"%string
                    (Fixtures.full F64.one) 2 2 2
                    (or_introl eq_refl) (or_introl eq_refl) eq_refl)
          as [_ Hfinite];
          [now apply shape_ok_has_shape | lia |].
        destruct (Hfinite eq_refl)
          as (em & mx & Hem & _ & _ & Hmx & _ & _ & _ & Habove).
        vm_compute in Hem. vm_compute in Hmx.
        injection Hem as <-. injection Hmx as <-.
        apply (Habove eq_refl). intros unit. discriminate. }
      split; [exact Hkey|].
      destruct Hraise as (g' & rq & e & [<- | []] & [<- | []] & Hr & He & _).
      * exists Fixtures.custom_grid, "vorticity"%string, KeyError.
        split; [now left|]. split; [now left | exact Hkey].
      * rewrite He. rewrite Hkey in Hr. now injection Hr as <-.
Defined.

(** The test of the repository: a grid with a NaN in a required quantity
    makes the constructor fail with [ValueError]. *)
Example init_rejects_grid_with_inf_entry :
  snd (__init__ (OneGrid Fixtures.grid_with_inf_entry)
         (Some ["E_x"]%string) true) = Raise ValueError.
Proof. reflexivity. Qed.

(** A finite quantity under a key that the grid does not recognize, with
    values on its edges: the constructor ends in the [KeyError] of the
    lookup of the unit and has emitted no warning. *)
Example init_unrecognized_key_raises_KeyError :
  __init__ (OneGrid Fixtures.custom_grid) (Some ["vorticity"]%string) true
  = ([], Raise KeyError).
Proof. vm_compute. reflexivity. Qed.

(** * Further properties of the tracker *)

(** ** The life of a tracker before a run *)

Lemma init_leaves_no_particles arg req verbose ws t :
  __init__ arg req verbose = (ws, Ok t) -> x t = None /\ _has_run t = false.
Proof.
  unfold __init__.
  destruct arg as [grid|gs|]; try discriminate;
    destruct (validate_grids _ req) as [ws' [gs'|e]]; simpl;
    try discriminate; intros [= _ <-]; now split.
Qed.

(** X1.  A tracker that comes out of the constructor holds no particles, and
    [run] on it raises [ValueError] before the loop, whatever [dt] and
    [field_weighting] are. *)
Theorem run_before_load_raises (I : Integrator) (arg : grids_arg)
    (req : option (list string)) (verbose : bool)
    (ws : list RuntimeWarning) (t : ParticleTracker)
    (Hinit : __init__ arg req verbose = (ws, Ok t)) :
  forall fuel dt_arg w, run fuel t dt_arg w = Raised ValueError.
Proof.
  intros fuel dt_arg w.
  destruct (init_leaves_no_particles _ _ _ _ _ Hinit) as [Hx _].
  unfold run, run_setup, _validate_inputs. rewrite Hx.
  now destruct (existsb (String.eqb w) field_weightings).
Qed.

Lemma run_before_load_raises_witness :
  exists t,
    __init__ (OneGrid Fixtures.empty_grid) (Some []) true = ([], Ok t)
    /\ run (H := Fixtures.field_free) 3 t None "volume averaged"
       = Raised ValueError.
Proof.
  eexists. split; [reflexivity|].
  apply (run_before_load_raises Fixtures.field_free
           (OneGrid Fixtures.empty_grid) (Some []) true [] _ eq_refl).
Defined.

(** X2.  [load_particles] on a tracker whose latch is set raises
    [RuntimeError] and changes nothing.  On a tracker that has not run it
    stores the charge and the mass first, whatever follows; then, with as
    many positions as velocities, it stores both arrays and their number of
    rows and returns; with different numbers of rows it raises [ValueError]
    and leaves the positions, the velocities and [nparticles] as they were,
    those of an earlier load if there was one, next to the new charge and
    mass.  Loads never touch the grids or the latch, and a load that
    succeeds wipes out every earlier one, failed or not: it leaves the
    tracker that it would have left without the earlier call. *)
Theorem load_particles_replaces (self s1 : ParticleTracker)
    (r1 : result unit) (p1 v1 p2 v2 : list vec3) (c1 m1 c2 m2 : float)
    (Hload : load_particles self p1 v1 c1 m1 = (s1, r1)) :
  (_has_run self = true -> s1 = self /\ r1 = Raise RuntimeError)
  /\ (_has_run self = false ->
      grids s1 = grids self /\ _has_run s1 = false
      /\ q s1 = c1 /\ m s1 = m1
      /\ (length p1 = length v1 ->
          r1 = Ok tt /\ x s1 = Some p1 /\ v s1 = v1
          /\ nparticles s1 = length p1)
      /\ (length p1 <> length v1 ->
          r1 = Raise ValueError /\ x s1 = x self /\ v s1 = v self
          /\ nparticles s1 = nparticles self)
      /\ (length p2 = length v2 ->
          load_particles s1 p2 v2 c2 m2 = load_particles self p2 v2 c2 m2
          /\ snd (load_particles s1 p2 v2 c2 m2) = Ok tt)).
Proof.
  unfold load_particles, _enforce_order in *.
  destruct (_has_run self) eqn:Hl.
  - injection Hload as <- <-. split; [now split | discriminate].
  - split; [discriminate|]. intros _.
    destruct (length p1 =? length v1) eqn:El; simpl in Hload;
      injection Hload as <- <-; simpl; rewrite ?Hl;
      [apply Nat.eqb_eq in El | apply Nat.eqb_neq in El];
      (repeat (split; [reflexivity|]));
      (split; [intros; try contradiction; now repeat split|]);
      (split; [intros; try contradiction; now repeat split|]);
      intros E2; apply Nat.eqb_eq in E2; rewrite E2; simpl; now split.
Qed.

Lemma load_particles_replaces_witness :
  exists s1 s2,
    load_particles (Fixtures.tracker false Fixtures.origin)
      [Fixtures.origin; Fixtures.origin] [Fixtures.origin] F64.one F64.two
    = (s1, Raise ValueError)
    /\ x s1 = Some [Fixtures.origin] /\ nparticles s1 = 1 /\ m s1 = F64.two
    /\ load_particles s1 [Fixtures.along_x F64.one] [Fixtures.origin]
         F64.one F64.one
       = (s2, Ok tt)
    /\ load_particles (Fixtures.tracker false Fixtures.origin)
         [Fixtures.along_x F64.one] [Fixtures.origin] F64.one F64.one
       = (s2, Ok tt).
Proof.
  do 2 eexists. split; [reflexivity|].
  destruct (load_particles_replaces (Fixtures.tracker false Fixtures.origin)
              _ _ [Fixtures.origin; Fixtures.origin] [Fixtures.origin]
              [Fixtures.along_x F64.one] [Fixtures.origin]
              F64.one F64.two F64.one F64.one eq_refl)
    as (_ & Hfresh).
  destruct (Hfresh eq_refl)
    as (_ & _ & _ & Hm & _ & Hbad & Hagain).
  destruct Hbad as (_ & Hx & _ & Hn); [simpl; lia|].
  destruct (Hagain eq_refl) as [Hsame _].
  split; [exact Hx|]. split; [exact Hn|]. split; [exact Hm|].
  split; [reflexivity|]. rewrite <- Hsame. reflexivity.
Defined.

Lemma validate_grids_nothing_required gs gs' :
  Forall2 (fun g g' => Grid.require_quantities g (Some []) true = Ok g')
    gs gs' ->
  validate_grids gs (Some []) = ([], Ok gs').
Proof.
  induction 1 as [|g g' gs gs' Hreq _ IH]; simpl; [reflexivity|].
  now rewrite Hreq, IH.
Qed.

(** X3.  With an empty list of required quantities the constructor looks at
    no array: as soon as [require_quantities] returns on every grid it
    builds the tracker on those grids and emits no warning, whatever the
    grids hold. *)
Theorem init_nothing_required (gs gs' : list AbstractGrid) (verbose : bool)
    (Hreq : Forall2
              (fun g g' => Grid.require_quantities g (Some []) true = Ok g')
              gs gs') :
  exists t,
    __init__ (GridIterable gs) (Some []) verbose = ([], Ok t)
    /\ grids t = gs' /\ x t = None /\ _has_run t = false.
Proof.
  unfold __init__. rewrite (validate_grids_nothing_required gs gs' Hreq).
  eexists. split; [reflexivity|]. now repeat split.
Qed.

Lemma init_nothing_required_witness :
  forallb F64.isfinite (flatten3 (Fixtures.full F64.nan)) = false
  /\ Grid.getitem Cases.unchecked_grid "E_x" = Ok (Fixtures.full F64.nan)
  /\ exists t,
       __init__ (GridIterable [Cases.unchecked_grid]) (Some []) true
       = ([], Ok t)
       /\ grids t = [Cases.unchecked_grid].
Proof.
  split; [reflexivity|]. split; [reflexivity|].
  destruct (init_nothing_required [Cases.unchecked_grid]
              [Cases.unchecked_grid] true) as (t & Ht & Hg & _).
  - repeat constructor.
  - exists t. now split.
Defined.

(** ** When the adaptive time step raises *)

Lemma two_or_more {A : Type} (l : list A) :
  length l <> 1 -> l <> [] -> exists a b rest, l = a :: b :: rest.
Proof.
  destruct l as [|a [|b rest]]; simpl; try congruence. intros _ _.
  now exists a, b, rest.
Qed.

Lemma nth_map_in_range {A B : Type} (g : A -> B) l p d d' :
  p < length l -> nth p (map g l) d' = g (nth p l d).
Proof.
  intros Hp. rewrite (nth_indep _ d' (g d)) by now rewrite length_map.
  apply map_nth.
Qed.

(** What [_adaptive_dt] computes for a range [lo, hi], row by row. *)
Lemma adaptive_dt_rows self F lo hi rest :
  dt self = lo :: hi :: rest ->
  0 < length (v self) -> 0 < length F -> 0 < num_grids self ->
  exists gs bmag largest mins,
    gridstep self = Ok gs /\ length gs = num_grids self
    /\ Bmag F = Ok bmag /\ np_max gs = Ok largest
    /\ length mins = nparticles_tracked self
    /\ (forall p, p < nparticles_tracked self ->
          np_min (map (fun c => np_clip c lo hi)
                    (candidates self gs (gyroperiod self bmag) p))
          = Ok (nth p mins F64.nan))
    /\ _adaptive_dt self F
       = Ok (map (fun d => if F64.eqb d F64.inf then largest else d) mins).
Proof.
  intros Hdt Hv HF Hg.
  destruct (gridstep_total self Hv) as (vm & Hvm & Hgs).
  destruct (Bmag_total F HF) as [bmag Hb].
  set (gs := map (fun grid =>
                    F64.mul F64.half (F64.div (Grid.grid_resolution grid) vm))
               (grids self)) in *.
  assert (Hlen : length gs = num_grids self) by apply length_map.
  destruct (np_max_total gs) as [largest Hl].
  { apply length_pos_not_nil. lia. }
  destruct (mapM_total
              (fun p => np_min (map (fun c => np_clip c lo hi)
                                  (candidates self gs (gyroperiod self bmag) p)))
              (seq 0 (nparticles_tracked self)))
    as (mins & Hmins & Hlm & Hnth).
  { intros p _. apply np_min_total. intros Heq.
    apply map_eq_nil in Heq. exact (candidates_not_nil _ _ _ _ Heq). }
  rewrite length_seq in Hlm.
  exists gs, bmag, largest, mins.
  repeat (split; [assumption|]). split.
  - intros p Hp. pose proof (Hnth p 0 F64.nan) as Hrow.
    rewrite length_seq, seq_nth in Hrow by assumption. exact (Hrow Hp).
  - unfold _adaptive_dt. rewrite Hdt. cbn [length Nat.eqb].
    rewrite Hgs. cbn [bind]. rewrite Hb. cbn [bind].
    unfold nth_error_or_raise. cbn [nth_error bind].
    rewrite Hmins. cbn [bind]. now rewrite Hl.
Qed.

Lemma adaptive_dt_forced self F :
  length (dt self) = 1 -> _adaptive_dt self F = Ok (dt self).
Proof. intros Hl. unfold _adaptive_dt. now rewrite Hl. Qed.

Lemma adaptive_dt_no_particle self F :
  length (dt self) <> 1 -> v self = [] ->
  _adaptive_dt self F = Raise ValueError.
Proof.
  intros Hl Hv. unfold _adaptive_dt, gridstep, vmax.
  apply Nat.eqb_neq in Hl. now rewrite Hl, Hv.
Qed.

Lemma adaptive_dt_no_field self F :
  length (dt self) <> 1 -> v self <> [] -> F = [] ->
  _adaptive_dt self F = Raise ValueError.
Proof.
  intros Hl Hv ->. unfold _adaptive_dt.
  apply Nat.eqb_neq in Hl. rewrite Hl.
  destruct (gridstep_total self) as (vm & _ & ->).
  { destruct (v self); [congruence | simpl; lia]. }
  reflexivity.
Qed.

Lemma adaptive_dt_empty_range self F :
  v self <> [] -> F <> [] -> dt self = [] ->
  _adaptive_dt self F = Raise IndexError.
Proof.
  intros Hv HF Hdt. unfold _adaptive_dt. rewrite Hdt. cbn [length Nat.eqb].
  destruct (gridstep_total self) as (vm & _ & ->).
  { destruct (v self); [congruence | simpl; lia]. }
  destruct (Bmag_total F) as [bmag ->].
  { destruct F; [congruence | simpl; lia]. }
  reflexivity.
Qed.

Lemma adaptive_dt_no_grid self F :
  length (dt self) <> 1 -> v self <> [] -> F <> [] -> dt self <> [] ->
  grids self = [] ->
  _adaptive_dt self F = Raise ValueError.
Proof.
  intros Hl Hv HF Hdt Hg.
  destruct (two_or_more _ Hl Hdt) as (lo & hi & rest & Hd).
  unfold _adaptive_dt. rewrite Hd. cbn [length Nat.eqb].
  destruct (gridstep_total self) as (vm & _ & ->).
  { destruct (v self); [congruence | simpl; lia]. }
  destruct (Bmag_total F) as [bmag ->].
  { destruct F; [congruence | simpl; lia]. }
  cbn [bind]. unfold nth_error_or_raise. cbn [nth_error bind].
  destruct (mapM_total
              (fun p => np_min (map (fun c => np_clip c lo hi)
                 (candidates self
                    (map (fun grid => F64.mul F64.half
                            (F64.div (Grid.grid_resolution grid) vm))
                       (grids self))
                    (gyroperiod self bmag) p)))
              (seq 0 (nparticles_tracked self)))
    as (mins & -> & _).
  { intros p _. apply np_min_total. intros Heq.
    apply map_eq_nil in Heq. exact (candidates_not_nil _ _ _ _ Heq). }
  cbn [bind]. now rewrite Hg.
Qed.

Lemma adaptive_dt_range_ok self F :
  length (dt self) <> 1 -> v self <> [] -> F <> [] -> dt self <> [] ->
  grids self <> [] ->
  exists dts, _adaptive_dt self F = Ok dts
              /\ length dts = nparticles_tracked self.
Proof.
  intros Hl Hv HF Hdt Hg.
  destruct (two_or_more _ Hl Hdt) as (lo & hi & rest & Hd).
  destruct (adaptive_dt_rows self F lo hi rest Hd)
    as (gs & bmag & largest & mins & _ & _ & _ & _ & Hlm & _ & Hres).
  - destruct (v self); [congruence | simpl; lia].
  - destruct F; [congruence | simpl; lia].
  - unfold num_grids. destruct (grids self); [congruence | simpl; lia].
  - eexists. split; [exact Hres|]. now rewrite length_map.
Qed.

(** X4.  [_adaptive_dt] ends in one of six ways.  A one-element [dt] comes
    back as it is, whatever the particles, the fields and the grids are.
    Otherwise: with no particle, [ValueError] (the maximum of no speed);
    else with an empty [dt], [IndexError]; else with no grid, [ValueError]
    (the maximum of no [gridstep]); else one [dt] per tracked particle. *)
Theorem adaptive_dt_outcome (self : ParticleTracker) (F : list fields) :
  (length (dt self) = 1 -> _adaptive_dt self F = Ok (dt self))
  /\ (length (dt self) <> 1 ->
      (v self = [] -> _adaptive_dt self F = Raise ValueError)
      /\ (v self <> [] -> F = [] -> _adaptive_dt self F = Raise ValueError)
      /\ (v self <> [] -> F <> [] -> dt self = [] ->
          _adaptive_dt self F = Raise IndexError)
      /\ (v self <> [] -> F <> [] -> dt self <> [] -> grids self = [] ->
          _adaptive_dt self F = Raise ValueError)
      /\ (v self <> [] -> F <> [] -> dt self <> [] -> grids self <> [] ->
          exists dts, _adaptive_dt self F = Ok dts
                      /\ length dts = nparticles_tracked self)).
Proof.
  split; [apply adaptive_dt_forced|]. intros Hl.
  split; [now apply adaptive_dt_no_particle|].
  split; [now apply adaptive_dt_no_field|].
  split; [now apply adaptive_dt_empty_range|].
  split; [now apply adaptive_dt_no_grid | now apply adaptive_dt_range_ok].
Qed.

(** ** What a pass of the loop keeps *)

Section Passes.

Context `{Integrator}.

(** X5.  Any number of passes of the loop leave the grids, the species, the
    latch, the weighting and [dt] as they were, and keep [N] rows in the
    positions, the velocities and [entered_grid]; on a tracker with at
    least one grid, after a pass [on_grid] is an array of [N] rows and
    [num_grids] columns. *)
Theorem pushes_keep_setup (n k : nat) (s0 sk : ParticleTracker)
    (H0 : tracking n s0)
    (Hk : pushes k s0 = Ok sk) :
  same_setup s0 sk
  /\ tracking n sk
  /\ (0 < k -> 0 < num_grids s0 ->
      length (on_grid sk) = n
      /\ forall row, In row (on_grid sk) -> length row = num_grids s0).
Proof.
  revert sk Hk. induction k as [|k IH]; intros sk Hk; simpl in Hk.
  - injection Hk as <-. split; [unfold same_setup; now repeat split|].
    split; [exact H0 | lia].
  - destruct (pushes k s0) as [s|] eqn:Ek; [|discriminate]. simpl in Hk.
    destruct (IH s eq_refl) as (Hsame & Ht & _).
    destruct (push_step _ _ _ Ht Hk) as (Ht' & Hog & _).
    split; [exact (same_setup_trans _ _ _ Hsame (push_same_setup _ _ Hk))|].
    split; [exact Ht'|]. intros _ _. split; [exact Hog|].
    destruct Ht as (pos & Hx & _).
    rewrite (push_on_grid _ _ _ Hk Hx). intros row Hrow.
    apply in_map_iff in Hrow. destruct Hrow as (p & <- & _).
    rewrite length_map. unfold num_grids.
    destruct Hsame as (Hg & _). now rewrite Hg.
Qed.

End Passes.

Lemma pushes_keep_setup_witness :
  exists sk,
    num_grids Cases.forced = 1
    /\ pushes (H := Fixtures.field_free) 2 Cases.forced = Ok sk
    /\ dt sk = [F64.one]
    /\ length (on_grid sk) = 1.
Proof.
  eexists. split; [reflexivity|]. split; [reflexivity|].
  lazymatch goal with
  | |- dt ?s = _ /\ _ =>
      destruct (pushes_keep_setup (H := Fixtures.field_free) 1 2
                  Cases.forced s)
        as ((_ & _ & _ & _ & _ & _ & _ & _ & Hdt) & _ & Hog)
  end.
  - exists [Fixtures.origin]. now repeat split.
  - reflexivity.
  - split; [exact Hdt|]. apply Hog; [lia | vm_compute; lia].
Defined.

(** ** A run that goes on, a run that raises *)

Section Runs.

Context `{Integrator}.

(** The loop can make a pass: the weighting is one of the two and either
    [dt] is forced or there are a particle, a grid and a range. *)
Lemma push_ok n s :
  tracking n s -> In (field_weighting s) field_weightings ->
  length (dt s) = 1
  \/ (0 < n /\ 2 <= length (dt s) /\ 0 < num_grids s) ->
  exists s', _push s = Ok s'.
Proof.
  intros (pos & Hx & Hpos & Hv & He & Hn) Hw Hcond.
  unfold _push. rewrite Hx.
  destruct (sum_fields_no_nan (field_weighting s) (grids s) pos Hw
              (repeat zero_fields (nparticles_tracked s)))
    as (F & HF & _).
  { apply forallb_forall. intros f Hf. apply repeat_spec in Hf. now subst f. }
  rewrite HF. cbn [bind].
  assert (HlF : length F = length pos).
  { apply (sum_fields_length _ _ _ _ _ HF).
    now rewrite repeat_length, Hn, Hpos. }
  match goal with
  | |- context [_adaptive_dt ?s1 F] =>
      assert (Hdt : exists dts, _adaptive_dt s1 F = Ok dts)
  end.
  { destruct Hcond as [H1 | (Hn0 & H2 & Hg)].
    - eexists. now apply adaptive_dt_forced.
    - match goal with
      | |- exists dts, _adaptive_dt ?s1 F = _ =>
          destruct (adaptive_dt_range_ok s1 F) as (dts & Hd & _)
      end; simpl.
      + lia.
      + intros Heq. rewrite Heq in Hv. simpl in Hv. lia.
      + intros Heq. rewrite Heq in HlF. simpl in HlF. lia.
      + intros Heq. rewrite Heq in H2. simpl in H2. lia.
      + intros Heq. unfold num_grids in Hg. rewrite Heq in Hg. simpl in Hg. lia.
      + now exists dts. }
  destruct Hdt as [dts ->]. cbn [bind].
  destruct (push_all _ _ _ _ _ _ _). now eexists.
Qed.

Lemma run_loop_goes_on n fuel :
  forall s,
    tracking n s -> In (field_weighting s) field_weightings ->
    length (dt s) = 1
    \/ (0 < n /\ 2 <= length (dt s) /\ 0 < num_grids s) ->
    exists s', run_loop fuel s = Running s'
               /\ same_setup s s' /\ tracking n s'.
Proof.
  induction fuel as [|fuel IH]; intros s Ht Hw Hcond; simpl.
  - exists s. split; [reflexivity|]. split; [|exact Ht].
    unfold same_setup. now repeat split.
  - destruct (push_ok n s Ht Hw Hcond) as [s1 Hp]. rewrite Hp.
    pose proof (push_same_setup _ _ Hp) as Hsame.
    destruct (push_step _ _ _ Ht Hp) as (Ht1 & _).
    destruct (IH s1) as (s' & Hr & Hsame' & Ht').
    + exact Ht1.
    + destruct Hsame as (_ & _ & _ & _ & _ & _ & Hfw & _). now rewrite Hfw.
    + destruct Hsame as (Hg & _ & _ & _ & _ & _ & _ & _ & Hd).
      unfold num_grids. now rewrite Hg, Hd.
    + exists s'. split; [exact Hr|]. split; [|exact Ht'].
      exact (same_setup_trans _ _ _ Hsame Hsame').
Qed.

Lemma run_setup_loaded self pos dt_arg w :
  x self = Some pos -> In w field_weightings ->
  exists s0, run_setup self dt_arg w = Ok s0
             /\ x s0 = Some pos /\ v s0 = v self /\ grids s0 = grids self
             /\ _has_run s0 = _has_run self /\ q s0 = q self
             /\ m s0 = m self
             /\ field_weighting s0 = w /\ dt s0 = resolved_dt dt_arg
             /\ nparticles_tracked s0 = length pos
             /\ entered_grid s0 = repeat 0%N (length pos)
             /\ on_grid s0
                = repeat (repeat false (num_grids self)) (length pos).
Proof.
  intros Hx Hw. unfold run_setup, _validate_inputs.
  assert (Hin : existsb (String.eqb w) field_weightings = true).
  { apply existsb_exists. exists w. split; [exact Hw | apply String.eqb_refl]. }
  rewrite Hin. simpl. rewrite !Hx. simpl. rewrite ?Hx.
  eexists. split; [reflexivity|]. simpl. unfold resolved_dt.
  now repeat split.
Qed.

(** X6.  Take a tracker with particles loaded, positions and velocities of
    the same number of rows, and a valid weighting.  If [dt] is forced (one
    element), or if there are at least one particle, one grid and a [dt] of
    two elements or more, then no pass of the loop raises: however many
    passes are made, [run] is still in its loop, on the same grids, with the
    latch as it was. *)
Theorem run_goes_on (self : ParticleTracker) (pos : list vec3)
    (dt_arg : option (list float)) (w : string)
    (Hx : x self = Some pos)
    (Hv : length (v self) = length pos)
    (Hw : In w field_weightings)
    (Hcond : length (resolved_dt dt_arg) = 1
             \/ (0 < length pos /\ 2 <= length (resolved_dt dt_arg)
                 /\ 0 < num_grids self)) :
  forall fuel,
    exists s, run fuel self dt_arg w = Running s
              /\ grids s = grids self /\ _has_run s = _has_run self
              /\ dt s = resolved_dt dt_arg
              /\ tracking (length pos) s.
Proof.
  intros fuel.
  destruct (run_setup_loaded self pos dt_arg w Hx Hw)
    as (s0 & Hs0 & Hx0 & Hv0 & Hg0 & Hl0 & _ & _ & Hw0 & Hd0 & Hn0 & He0 & _).
  destruct (run_loop_goes_on (length pos) fuel s0) as (s & Hr & Hsame & Ht).
  - exists pos. rewrite He0, repeat_length. repeat split; congruence.
  - now rewrite Hw0.
  - unfold num_grids. now rewrite Hd0, Hg0.
  - exists s. unfold run. rewrite Hs0, Hr.
    destruct Hsame as (Hg & _ & Hl & _ & _ & _ & _ & _ & Hd).
    repeat split; congruence.
Qed.

(** X7.  On the same tracker, when [dt] is not forced: with no particle the
    first pass raises [ValueError]; with a particle and an empty [dt],
    [IndexError]; with a particle, a [dt] of two elements or more and no
    grid, [ValueError]. *)
Theorem run_raises_in_first_pass (self : ParticleTracker) (pos : list vec3)
    (dt_arg : option (list float)) (w : string)
    (Hx : x self = Some pos)
    (Hv : length (v self) = length pos)
    (Hw : In w field_weightings)
    (Hdt : length (resolved_dt dt_arg) <> 1) :
  forall fuel,
    (pos = [] -> run (S fuel) self dt_arg w = Raised ValueError)
    /\ (pos <> [] -> resolved_dt dt_arg = [] ->
        run (S fuel) self dt_arg w = Raised IndexError)
    /\ (pos <> [] -> resolved_dt dt_arg <> [] -> grids self = [] ->
        run (S fuel) self dt_arg w = Raised ValueError).
Proof.
  intros fuel.
  destruct (run_setup_loaded self pos dt_arg w Hx Hw)
    as (s0 & Hs0 & Hx0 & Hv0 & Hg0 & _ & _ & _ & Hw0 & Hd0 & Hn0 & _).
  assert (Hpush : forall e,
            (forall s1 F, v s1 = v self -> grids s1 = grids self ->
                          dt s1 = resolved_dt dt_arg ->
                          length F = length pos ->
                          _adaptive_dt s1 F = Raise e) ->
            run (S fuel) self dt_arg w = Raised e).
  { intros e He. unfold run. rewrite Hs0. simpl. unfold _push. rewrite Hx0.
    destruct (sum_fields_no_nan (field_weighting s0) (grids s0) pos)
      with (tot := repeat zero_fields (nparticles_tracked s0))
      as (F & HF & _).
    { now rewrite Hw0. }
    { apply forallb_forall. intros f Hf. apply repeat_spec in Hf.
      now subst f. }
    rewrite HF. cbn [bind]. rewrite He; [reflexivity | | | |]; simpl;
      try assumption.
    apply (sum_fields_length _ _ _ _ _ HF). now rewrite repeat_length. }
  split; [|split].
  - intros Hp. apply Hpush. intros s1 F Hv1 Hg1 Hd1 HlF.
    apply adaptive_dt_no_particle; [now rewrite Hd1|].
    rewrite Hv1. subst pos. now destruct (v self).
  - intros Hp Hd. apply Hpush. intros s1 F Hv1 Hg1 Hd1 HlF.
    apply adaptive_dt_empty_range.
    + rewrite Hv1. intros Heq. rewrite Heq in Hv. destruct pos; simpl in *; congruence.
    + intros Heq. subst F. destruct pos; simpl in *; congruence.
    + now rewrite Hd1.
  - intros Hp Hd Hg. apply Hpush. intros s1 F Hv1 Hg1 Hd1 HlF.
    apply adaptive_dt_no_grid.
    + now rewrite Hd1.
    + rewrite Hv1. intros Heq. rewrite Heq in Hv. destruct pos; simpl in *; congruence.
    + intros Heq. subst F. destruct pos; simpl in *; congruence.
    + now rewrite Hd1.
    + now rewrite Hg1.
Qed.

End Runs.

Lemma run_goes_on_witness :
  exists s,
    run (H := Fixtures.field_free) 4
      (Fixtures.tracker false (Fixtures.along_x F64.one))
      (Some [F64.one]) "nearest neighbor" = Running s
    /\ _has_run s = false.
Proof.
  destruct (run_goes_on (H := Fixtures.field_free)
              (Fixtures.tracker false (Fixtures.along_x F64.one))
              [Fixtures.origin] (Some [F64.one]) "nearest neighbor"
              eq_refl eq_refl) with (fuel := 4)
    as (s & Hr & _ & Hl & _).
  - simpl. right. left. reflexivity.
  - left. reflexivity.
  - exists s. split; [exact Hr | exact Hl].
Defined.

Lemma run_raises_in_first_pass_witness :
  run (H := Fixtures.field_free) 1 Cases.no_grid None "volume averaged"
  = Raised ValueError.
Proof.
  apply (run_raises_in_first_pass (H := Fixtures.field_free) Cases.no_grid
           [Fixtures.origin] None "volume averaged" eq_refl eq_refl).
  - simpl. left. reflexivity.
  - simpl. lia.
  - discriminate.
  - discriminate.
  - reflexivity.
Defined.

(** ** Which particles are on a grid *)

Lemma count_true_pos row :
  (0 <? count_true row)%N = existsb (fun b : bool => b) row.
Proof.
  unfold count_true. induction row as [|b row IH]; [reflexivity|].
  destruct b; simpl; [|exact IH].
  apply N.ltb_lt. lia.
Qed.

Lemma existsb_map {A B : Type} (f : A -> B) (P : B -> bool) l :
  existsb P (map f l) = existsb (fun a => P (f a)) l.
Proof. induction l as [|a l IH]; simpl; [reflexivity | now rewrite IH]. Qed.

(** X8.  On a tracker with at least one grid, [on_any_grid] is the
    disjunction of the columns of [on_grid], and after a pass of the loop
    its entry for a particle tells whether some grid holds the position
    the particle had when the pass began. *)
Theorem on_any_grid_after_push (I : Integrator) (s s' : ParticleTracker)
    (pos : list vec3)
    (Hg : 0 < num_grids s)
    (Hx : x s = Some pos)
    (Hp : _push s = Ok s') :
  on_any_grid s = map (existsb (fun b : bool => b)) (on_grid s)
  /\ on_any_grid s'
     = map (fun p => existsb (fun grid => Grid.on_grid grid p) (grids s)) pos.
Proof.
  assert (Hor : forall t,
            on_any_grid t = map (existsb (fun b : bool => b)) (on_grid t)).
  { intros t. unfold on_any_grid. apply map_ext. apply count_true_pos. }
  split; [apply Hor|].
  rewrite Hor, (push_on_grid _ _ _ Hp Hx), map_map.
  apply map_ext. intros p. apply existsb_map.
Qed.

Lemma on_any_grid_after_push_witness :
  0 < num_grids Cases.forced
  /\ exists s',
       _push (H := Fixtures.field_free) Cases.forced = Ok s'
       /\ on_any_grid s' = [true].
Proof.
  assert (Hg : 0 < num_grids Cases.forced) by (vm_compute; lia).
  split; [exact Hg|].
  eexists. split; [reflexivity|].
  lazymatch goal with
  | |- on_any_grid ?s = _ =>
      rewrite (proj2 (on_any_grid_after_push Fixtures.field_free
                        Cases.forced s [Fixtures.origin] Hg
                        eq_refl eq_refl))
  end.
  vm_compute. reflexivity.
Defined.

(** ** A particle outside every grid *)

Lemma nth_zip_with {A B C : Type} (f : A -> B -> C) l l' p da db dc :
  p < length l -> p < length l' ->
  nth p (zip_with f l l') dc = f (nth p l da) (nth p l' db).
Proof.
  revert l' p. induction l as [|a l IH]; intros [|b l'] [|p] Hl Hl';
    simpl in *; try lia; [reflexivity|]. apply IH; lia.
Qed.

Lemma sum_fields_off_grid w gs pos p :
  In w field_weightings -> p < length pos ->
  (forall grid, In grid gs ->
     all_nan (Grid.volume_averaged_interpolator grid (nth p pos nan_vec))
     = true
     /\ all_nan (Grid.nearest_neighbor_interpolator grid (nth p pos nan_vec))
        = true) ->
  forall tot, length tot = length pos -> nth p tot zero_fields = zero_fields ->
  exists F, sum_fields w gs pos tot = Ok F
            /\ length F = length pos
            /\ nth p F zero_fields = zero_fields.
Proof.
  intros Hw Hp. induction gs as [|g gs IH]; intros Hoff tot Hlen Hz; simpl.
  - now exists tot.
  - assert (Hc : exists c, contribution w g pos = Ok c
                           /\ length c = length pos
                           /\ nth p c zero_fields = zero_fields).
    { destruct (Hoff g (or_introl eq_refl)) as [Hva Hnn].
      unfold contribution, interpolate.
      destruct Hw as [<- | [<- | []]]; simpl; eexists;
        (split; [reflexivity|]); rewrite !length_map;
        (split; [reflexivity|]);
        rewrite map_map;
        rewrite (nth_map_in_range _ pos p nan_vec) by assumption;
        now apply all_nan_to_zero. }
    destruct Hc as (c & -> & Hlc & Hzc). cbn [bind]. apply IH.
    + intros grid Hin. apply Hoff. now right.
    + rewrite zip_with_length; congruence.
    + rewrite (nth_zip_with add_fields tot c p zero_fields zero_fields)
        by congruence.
      now rewrite Hz, Hzc.
Qed.

(** X9.  A particle at a position where both interpolators of every grid
    give NaN in all six components (a position off every grid) gets a total
    field of exactly zero in all six components, with either weighting and
    whatever the other particles and the number of grids are. *)
Theorem off_grid_particle_feels_no_field (w : string)
    (gs : list AbstractGrid) (pos : list vec3) (p : nat)
    (Hw : In w field_weightings)
    (Hp : p < length pos)
    (Hoff : forall grid, In grid gs ->
              all_nan (Grid.volume_averaged_interpolator grid
                         (nth p pos nan_vec)) = true
              /\ all_nan (Grid.nearest_neighbor_interpolator grid
                            (nth p pos nan_vec)) = true) :
  exists F,
    sum_fields w gs pos (repeat zero_fields (length pos)) = Ok F
    /\ length F = length pos
    /\ nth p F zero_fields = zero_fields.
Proof.
  apply (sum_fields_off_grid w gs pos p Hw Hp Hoff).
  - apply repeat_length.
  - now rewrite nth_repeat.
Qed.

Lemma off_grid_particle_feels_no_field_witness :
  exists F,
    sum_fields "volume averaged"
      [Fixtures.overflowing_grid; Fixtures.charged_grid]
      [Fixtures.origin; Cases.far_away] (repeat zero_fields 2) = Ok F
    /\ nth 1 F zero_fields = zero_fields.
Proof.
  destruct (off_grid_particle_feels_no_field "volume averaged"
              [Fixtures.overflowing_grid; Fixtures.charged_grid]
              [Fixtures.origin; Cases.far_away] 1) as (F & HF & _ & Hz).
  - simpl. left. reflexivity.
  - simpl. lia.
  - intros grid [<- | [<- | []]]; split; vm_compute; reflexivity.
  - exists F. split; [exact HF | exact Hz].
Defined.

(** ** Signs through rounding *)

Section Signs.

Variables prec emax : Z.

Open Scope Z_scope.

Lemma binary_round_aux_signed sx mz e l :
  0 <= mz -> signed sx (binary_round_aux prec emax sx mz e l) = true.
Proof.
  intros Hm. unfold binary_round_aux.
  pose proof (shr_fexp_nonneg prec emax mz e l Hm) as H1.
  destruct (shr_fexp prec emax mz e l) as [mrs' e']. simpl in H1.
  pose proof (shr_fexp_nonneg prec emax _ e' loc_Exact
                (round_nearest_even_nonneg _ (loc_of_shr_record mrs') H1))
    as H2.
  destruct (shr_fexp prec emax _ e' loc_Exact) as [mrs'' e'']. simpl in H2.
  destruct (shr_m mrs''); [simpl; apply eqb_reflx | | lia].
  destruct (e'' <=? emax - prec); simpl; apply eqb_reflx.
Qed.

Lemma SFdiv_core_nonneg mx ex my ey :
  0 <= fst (fst (SFdiv_core_binary prec emax (Zpos mx) ex (Zpos my) ey)).
Proof.
  unfold SFdiv_core_binary.
  set (s := _ - _ - Z.min _ _).
  set (m' := match s with
             | Zpos _ => Z.shiftl (Zpos mx) s
             | Z0 => Zpos mx
             | Zneg _ => 0
             end).
  assert (Hm' : 0 <= m').
  { unfold m'. destruct s; try lia. apply Z.shiftl_nonneg. lia. }
  destruct (Z.div_eucl m' (Zpos my)) as [qz r] eqn:E. simpl.
  assert (Hq : qz = m' / Zpos my) by (unfold Z.div; now rewrite E).
  rewrite Hq. apply Z.div_pos; lia.
Qed.

(** A product of numbers has the sign of the signs, when it is a number. *)
Lemma SFmul_signed sa sb a b :
  signed sa a = true -> signed sb b = true ->
  F64.isnan (SFmul prec emax a b) = true
  \/ signed (xorb sa sb) (SFmul prec emax a b) = true.
Proof.
  destruct a as [s|s| |s ma ea], b as [s'|s'| |s' mb eb]; simpl;
    try discriminate; intros Ha Hb;
    apply eqb_prop in Ha; apply eqb_prop in Hb; subst;
    try (left; reflexivity); right; try apply eqb_reflx.
  now apply binary_round_aux_signed.
Qed.

(** A quotient of numbers has the sign of the signs, when it is a number. *)
Lemma SFdiv_signed sa sb a b :
  signed sa a = true -> signed sb b = true ->
  F64.isnan (SFdiv prec emax a b) = true
  \/ signed (xorb sa sb) (SFdiv prec emax a b) = true.
Proof.
  destruct a as [s|s| |s ma ea], b as [s'|s'| |s' mb eb];
    try discriminate; intros Ha Hb; simpl in Ha, Hb;
    apply eqb_prop in Ha; apply eqb_prop in Hb; subst;
    try (left; reflexivity); right; try (simpl; apply eqb_reflx).
  unfold SFdiv.
  pose proof (SFdiv_core_nonneg ma ea mb eb) as Hq.
  destruct (SFdiv_core_binary prec emax (Zpos ma) ea (Zpos mb) eb)
    as [[mz ez] lz]. simpl in Hq.
  now apply binary_round_aux_signed.
Qed.

End Signs.

Lemma signed_number s a : signed s a = true -> F64.isnan a = false.
Proof. now destruct a. Qed.

Lemma number_signed a :
  F64.isnan a = false -> exists s, signed s a = true.
Proof.
  destruct a as [s|s| |s mz e]; try discriminate; intros _; exists s;
    simpl; apply eqb_reflx.
Qed.

Lemma positive_finite_signed a :
  positive_finite a = true -> signed false a = true /\ F64.isfinite a = true.
Proof. destruct a as [| | |[] mz e]; try discriminate. now split. Qed.

(** A finite number above zero times a number, and a number over a finite
    number above zero: a number of the same sign. *)
Lemma mul_positive_signed s a b :
  positive_finite a = true -> signed s b = true ->
  signed s (F64.mul a b) = true.
Proof.
  intros Ha Hb.
  destruct a as [| | |[] ma ea]; try discriminate.
  destruct b as [s'|s'| |s' mb eb]; try discriminate; simpl in Hb |- *;
    try exact Hb.
  apply eqb_prop in Hb. subst s'. now apply binary_round_aux_signed.
Qed.

Lemma div_positive_signed s a b :
  signed s a = true -> positive_finite b = true ->
  signed s (F64.div a b) = true.
Proof.
  intros Ha Hb.
  destruct b as [| | |[] mb eb]; try discriminate.
  destruct (SFdiv_signed F64.prec F64.emax s false a
              (S754_finite false mb eb) Ha eq_refl) as [Hn | Hs].
  - destruct a as [s'|s'| |s' ma ea]; try discriminate.
    exfalso. unfold SFdiv in Hn.
    pose proof (SFdiv_core_nonneg F64.prec F64.emax ma ea mb eb) as Hq.
    destruct (SFdiv_core_binary _ _ _ _ _ _) as [[mz ez] lz]. simpl in Hq.
    rewrite (binary_round_aux_not_nan F64.prec F64.emax _ _ _ _ Hq) in Hn.
    discriminate.
  - now rewrite xorb_false_r in Hs.
Qed.

(** ** NaN goes through *)

Lemma isnan_eq a : F64.isnan a = true -> a = F64.nan.
Proof. now destruct a. Qed.

Lemma add_nan_r a : F64.add a F64.nan = F64.nan.
Proof. now destruct a. Qed.

Lemma mul_nan_r a : F64.mul a F64.nan = F64.nan.
Proof. now destruct a. Qed.

Lemma div_nan_r a : F64.div a F64.nan = F64.nan.
Proof. now destruct a. Qed.

Lemma div_nan_l b : F64.div F64.nan b = F64.nan.
Proof. reflexivity. Qed.

Lemma norm_nan w : nan_in_vec w = true -> norm w = F64.nan.
Proof.
  destruct w as [[a b] c]. unfold nan_in_vec, norm.
  rewrite !orb_true_iff. intros [[Ha | Hb] | Hc].
  - apply isnan_eq in Ha. subst a. reflexivity.
  - apply isnan_eq in Hb. subst b.
    change (F64.mul F64.nan F64.nan) with F64.nan. now rewrite add_nan_r.
  - apply isnan_eq in Hc. subst c.
    change (F64.mul F64.nan F64.nan) with F64.nan. now rewrite add_nan_r.
Qed.

Lemma np_maximum_nan_r a : np_maximum a F64.nan = F64.nan.
Proof. now destruct a. Qed.

Lemma np_minimum_nan_r a : np_minimum a F64.nan = F64.nan.
Proof. now destruct a. Qed.

Lemma fold_maximum_nan l :
  forall a, F64.isnan a = true \/ existsb F64.isnan l = true ->
            fold_left np_maximum l a = F64.nan.
Proof.
  induction l as [|b l IH]; intros a Hn; simpl in *.
  - destruct Hn as [Ha | Hf]; [now apply isnan_eq | discriminate].
  - apply IH. destruct Hn as [Ha | Hb].
    + left. apply isnan_eq in Ha. now subst a.
    + apply orb_true_iff in Hb. destruct Hb as [Hb | Hl]; [|now right].
      left. apply isnan_eq in Hb. subst b. now rewrite np_maximum_nan_r.
Qed.

Lemma fold_minimum_nan l :
  forall a, F64.isnan a = true \/ existsb F64.isnan l = true ->
            fold_left np_minimum l a = F64.nan.
Proof.
  induction l as [|b l IH]; intros a Hn; simpl in *.
  - destruct Hn as [Ha | Hf]; [now apply isnan_eq | discriminate].
  - apply IH. destruct Hn as [Ha | Hb].
    + left. apply isnan_eq in Ha. now subst a.
    + apply orb_true_iff in Hb. destruct Hb as [Hb | Hl]; [|now right].
      left. apply isnan_eq in Hb. subst b. now rewrite np_minimum_nan_r.
Qed.

(** [np.max] and [np.min] of an array that holds a NaN are NaN. *)
Lemma np_max_nan l : existsb F64.isnan l = true -> np_max l = Ok F64.nan.
Proof.
  destruct l as [|a l]; [discriminate|]. simpl. intros Hn.
  rewrite fold_maximum_nan; [reflexivity|]. now apply orb_true_iff.
Qed.

Lemma np_min_nan l : existsb F64.isnan l = true -> np_min l = Ok F64.nan.
Proof.
  destruct l as [|a l]; [discriminate|]. simpl. intros Hn.
  rewrite fold_minimum_nan; [reflexivity|]. now apply orb_true_iff.
Qed.

Lemma np_clip_nan lo hi : np_clip F64.nan lo hi = F64.nan.
Proof. unfold np_clip. now destruct hi. Qed.

Lemma np_clip_number c lo hi :
  F64.isnan (np_clip c lo hi) = false -> F64.isnan c = false.
Proof.
  destruct (F64.isnan c) eqn:Hc; [|reflexivity].
  apply isnan_eq in Hc. subst c. now rewrite np_clip_nan.
Qed.

Lemma existsb_isnan_in l a :
  In a l -> F64.isnan a = true -> existsb F64.isnan l = true.
Proof. intros Hin Ha. apply existsb_exists. now exists a. Qed.

Lemma not_existsb_isnan_numbers l :
  existsb F64.isnan l = false -> numbers l.
Proof.
  intros Hn a Ha. destruct (F64.isnan a) eqn:E; [|reflexivity].
  now rewrite (existsb_isnan_in l a Ha E) in Hn.
Qed.

Lemma grid_candidate_in self gs p i :
  i < num_grids self -> on_grid_at self p i = true ->
  In (nth i gs F64.inf) (grid_candidates self gs p).
Proof.
  intros Hi Hon. unfold grid_candidates. apply in_map_iff. exists i.
  rewrite Hon. split; [reflexivity|]. apply in_seq. lia.
Qed.

(** X10.  A single velocity with a NaN component (a stopped particle) makes
    [vmax] NaN and with it every entry of [gridstep]; in the adaptive time
    step every particle that is on a grid then gets a NaN [dt]. *)
Theorem nan_velocity_spreads (self : ParticleTracker) (w : vec3)
    (Hin : In w (v self))
    (Hnan : nan_in_vec w = true) :
  vmax self = Ok F64.nan
  /\ gridstep self = Ok (repeat F64.nan (num_grids self))
  /\ forall F lo hi rest,
       dt self = lo :: hi :: rest -> 0 < length F -> 0 < num_grids self ->
       exists dts,
         _adaptive_dt self F = Ok dts
         /\ length dts = nparticles_tracked self
         /\ forall p i,
              p < nparticles_tracked self -> i < num_grids self ->
              on_grid_at self p i = true ->
              nth p dts F64.zero = F64.nan.
Proof.
  assert (Hvm : vmax self = Ok F64.nan).
  { unfold vmax. apply np_max_nan. apply existsb_exists. exists (norm w).
    split; [now apply in_map|]. now rewrite (norm_nan w Hnan). }
  assert (Hgs : gridstep self = Ok (repeat F64.nan (num_grids self))).
  { unfold gridstep. rewrite Hvm. cbn [bind]. f_equal. unfold num_grids.
    rewrite <- (length_map (fun grid =>
      F64.mul F64.half (F64.div (Grid.grid_resolution grid) F64.nan))).
    apply Forall_eq_repeat, Forall_eq_map. intros grid _.
    now rewrite div_nan_r, mul_nan_r. }
  split; [exact Hvm|]. split; [exact Hgs|].
  intros F lo hi rest Hdt HF Hg.
  destruct (adaptive_dt_rows self F lo hi rest Hdt)
    as (gs & bmag & largest & mins & Hgs' & _ & _ & _ & Hlm & Hrow & Hres);
    try assumption.
  { destruct (v self); [destruct Hin | simpl; lia]. }
  rewrite Hgs in Hgs'. injection Hgs' as <-.
  eexists. split; [exact Hres|]. split; [now rewrite length_map|].
  intros p i Hp Hi Hon.
  rewrite (nth_map_in_range _ mins p F64.nan) by lia.
  assert (Hm : nth p mins F64.nan = F64.nan).
  { specialize (Hrow p Hp). rewrite np_min_nan in Hrow; [congruence|].
    apply existsb_exists. exists F64.nan. split; [|reflexivity].
    rewrite <- (np_clip_nan lo hi) at 1.
    apply (in_map (fun c => np_clip c lo hi)). unfold candidates.
    apply in_or_app. left.
    pose proof (grid_candidate_in self (repeat F64.nan (num_grids self))
                  p i Hi Hon) as Hc.
    rewrite (nth_indep _ F64.inf F64.nan) in Hc by now rewrite repeat_length.
    now rewrite nth_repeat in Hc. }
  now rewrite Hm.
Qed.

Lemma nan_velocity_spreads_witness :
  vmax Cases.one_stopped = Ok F64.nan
  /\ _adaptive_dt Cases.one_stopped [zero_fields; zero_fields]
     = Ok [F64.nan; F64.nan].
Proof.
  destruct (nan_velocity_spreads Cases.one_stopped nan_vec)
    as (Hvm & _ & _).
  - simpl. right. left. reflexivity.
  - reflexivity.
  - split; [exact Hvm|]. vm_compute. reflexivity.
Defined.

(** ** The sign of the charge *)

Lemma two_pi_positive : positive_finite (F64.mul F64.two F64.pi) = true.
Proof. reflexivity. Qed.

Lemma twelve_positive : positive_finite F64.twelve = true.
Proof. reflexivity. Qed.

Lemma gyroperiod_negative_charge self bmag :
  positive_finite (m self) = true -> negative_finite (q self) = true ->
  positive_finite bmag = true ->
  F64.isnan (gyroperiod self bmag) = true
  \/ signed true (gyroperiod self bmag) = true.
Proof.
  intros Hm Hq Hb. unfold gyroperiod.
  assert (Hz : F64.eqb bmag F64.zero = false)
    by (destruct bmag as [| | |[] mb eb]; try discriminate; reflexivity).
  rewrite Hz.
  assert (Hnum : signed false (F64.mul (F64.mul F64.two F64.pi) (m self))
                 = true).
  { apply mul_positive_signed; [exact two_pi_positive|].
    now apply positive_finite_signed. }
  assert (Hden : signed true (F64.mul (q self) bmag) = true).
  { destruct (q self) as [| | |[] mq eq]; try discriminate.
    destruct bmag as [| | |[] mb eb]; try discriminate.
    apply (binary_round_aux_signed F64.prec F64.emax true). lia. }
  exact (SFdiv_signed F64.prec F64.emax false true _ _ Hnum Hden).
Qed.

Lemma clip_negative_to_zero c :
  signed true c = true -> F64.is_zero (np_clip c F64.zero F64.inf) = true.
Proof. destruct c as [[]|[]| |[] mc ec]; try discriminate; reflexivity. Qed.

Lemma is_zero_not_inf a : F64.is_zero a = true -> F64.eqb a F64.inf = false.
Proof. now destruct a. Qed.

Lemma between_zeros a z :
  F64.isnan a = false -> F64.is_zero z = true ->
  fle F64.zero a -> fle a z -> F64.is_zero a = true.
Proof.
  destruct z as [sz| | |]; try discriminate. intros Ha _.
  unfold fle, lex_le.
  destruct a as [s|[]| |[] ma ea]; try discriminate; simpl; try reflexivity;
    lia.
Qed.

(** X11.  For a species of negative charge in a magnetic field whose largest
    magnitude is finite and above zero, with [dt] left at the default range
    [0, inf], a mass that is finite and above zero, at least one particle
    and one grid: the gyroperiod is negative or NaN, and the [dt] of every
    particle is zero, or NaN; it is never above zero. *)
Theorem negative_charge_never_advances (self : ParticleTracker)
    (F : list fields) (bmag : float)
    (Hdt : dt self = [F64.zero; F64.inf])
    (Hv : 0 < length (v self))
    (Hg : 0 < num_grids self)
    (Hb : Bmag F = Ok bmag)
    (Hbpos : positive_finite bmag = true)
    (Hm : positive_finite (m self) = true)
    (Hq : negative_finite (q self) = true) :
  (F64.isnan (gyroperiod self bmag) = true
   \/ signed true (gyroperiod self bmag) = true)
  /\ exists dts,
       _adaptive_dt self F = Ok dts
       /\ length dts = nparticles_tracked self
       /\ forall p, p < nparticles_tracked self ->
            F64.is_zero (nth p dts F64.one) = true
            \/ F64.isnan (nth p dts F64.one) = true.
Proof.
  pose proof (gyroperiod_negative_charge self bmag Hm Hq Hbpos) as Hgyro.
  split; [exact Hgyro|].
  destruct (adaptive_dt_rows self F F64.zero F64.inf [] Hdt Hv)
    as (gs & bmag' & largest & mins & _ & _ & Hb' & _ & Hlm & Hrow & Hres);
    try assumption.
  { destruct F; [discriminate | simpl; lia]. }
  rewrite Hb in Hb'. injection Hb' as <-.
  eexists. split; [exact Hres|]. split; [now rewrite length_map|].
  intros p Hp. rewrite (nth_map_in_range _ mins p F64.nan) by lia.
  specialize (Hrow p Hp).
  set (row := map (fun c => np_clip c F64.zero F64.inf)
                (candidates self gs (gyroperiod self bmag) p)) in *.
  set (last_c := F64.div (gyroperiod self bmag) F64.twelve).
  assert (Hlast : In (np_clip last_c F64.zero F64.inf) row).
  { unfold row. apply (in_map (fun c => np_clip c F64.zero F64.inf)).
    unfold candidates. apply in_or_app. right. now left. }
  destruct (existsb F64.isnan row) eqn:En.
  - right. rewrite (np_min_nan row En) in Hrow. injection Hrow as <-.
    reflexivity.
  - destruct Hgyro as [Hn | Hs].
    + exfalso. apply isnan_eq in Hn. unfold last_c in Hlast. rewrite Hn in Hlast.
      rewrite div_nan_l, np_clip_nan in Hlast.
      now rewrite (existsb_isnan_in row F64.nan Hlast eq_refl) in En.
    + left. pose proof (not_existsb_isnan_numbers row En) as Hnum.
      destruct (np_min_spec row) as (low & Hlow & Hin & Hbound).
      { intros Heq. now rewrite Heq in Hlast. }
      { exact Hnum. }
      rewrite Hrow in Hlow. injection Hlow as <-.
      assert (Hz : F64.is_zero (nth p mins F64.nan) = true).
      { apply (between_zeros _ (np_clip last_c F64.zero F64.inf)).
        - now apply Hnum.
        - apply clip_negative_to_zero. unfold last_c.
          apply div_positive_signed; [exact Hs | exact twelve_positive].
        - pose proof (Hnum _ Hin) as Hlown.
          unfold row in Hin. apply in_map_iff in Hin.
          destruct Hin as (c & Hc & _). rewrite <- Hc.
          apply np_clip_spec; try reflexivity.
          + apply (np_clip_number c F64.zero F64.inf). now rewrite Hc.
          + unfold fle, lex_le. simpl. lia.
        - now apply Hbound. }
      now rewrite (is_zero_not_inf _ Hz).
Qed.

Lemma negative_charge_never_advances_witness :
  _adaptive_dt Cases.negative_charge [Cases.unit_Bz] = Ok [F64.zero].
Proof.
  destruct (negative_charge_never_advances Cases.negative_charge
              [Cases.unit_Bz] F64.one)
    as (_ & dts & Hd & _);
    [reflexivity | vm_compute; lia | vm_compute; lia | reflexivity
    | reflexivity | reflexivity | reflexivity |].
  vm_compute. reflexivity.
Defined.

(** ** A finite range is kept *)

Lemma finite_signed a :
  F64.isfinite a = true -> exists s, signed s a = true.
Proof.
  destruct a as [s|s| |s mz e]; try discriminate; intros _; exists s;
    simpl; apply eqb_reflx.
Qed.

Lemma gridstep_numbers self vm :
  vmax self = Ok vm -> positive_finite vm = true ->
  (forall grid, In grid (grids self) ->
                F64.isfinite (Grid.grid_resolution grid) = true) ->
  exists gs, gridstep self = Ok gs /\ numbers gs.
Proof.
  intros Hvm Hpos Hds. unfold gridstep. rewrite Hvm. cbn [bind].
  eexists. split; [reflexivity|]. intros a Ha. apply in_map_iff in Ha.
  destruct Ha as (grid & <- & Hin).
  destruct (finite_signed _ (Hds grid Hin)) as [s Hs].
  apply (signed_number s). apply mul_positive_signed; [reflexivity|].
  now apply div_positive_signed.
Qed.

Lemma fle_finite_not_inf a hi :
  F64.isnan a = false -> F64.isfinite hi = true -> fle a hi ->
  F64.eqb a F64.inf = false.
Proof.
  unfold fle, lex_le.
  destruct a as [s|[]| |[] ma ea]; try discriminate; try reflexivity.
  destruct hi as [s'| | |[] mh eh]; try discriminate; simpl; lia.
Qed.

(** X12.  With a range [lo, hi] in order, [hi] finite, a largest speed that
    is finite and above zero, grids of finite resolution and a gyroperiod
    that is not NaN, every [dt] that [_adaptive_dt] returns is a number
    between [lo] and [hi]: the fallback never comes into play. *)
Theorem finite_range_is_kept (self : ParticleTracker) (F : list fields)
    (lo hi vm bmag : float) (rest : list float)
    (Hdt : dt self = lo :: hi :: rest)
    (Hlo : F64.isnan lo = false)
    (Hhi : F64.isfinite hi = true)
    (Hle : fle lo hi)
    (Hg : 0 < num_grids self)
    (Hds : forall grid, In grid (grids self) ->
                        F64.isfinite (Grid.grid_resolution grid) = true)
    (Hvm : vmax self = Ok vm)
    (Hvpos : positive_finite vm = true)
    (Hb : Bmag F = Ok bmag)
    (Hgyro : F64.isnan (gyroperiod self bmag) = false) :
  exists dts,
    _adaptive_dt self F = Ok dts
    /\ length dts = nparticles_tracked self
    /\ forall p, p < nparticles_tracked self ->
         F64.isnan (nth p dts F64.nan) = false
         /\ fle lo (nth p dts F64.nan) /\ fle (nth p dts F64.nan) hi.
Proof.
  assert (Hhin : F64.isnan hi = false) by now destruct hi.
  destruct (gridstep_numbers self vm Hvm Hvpos Hds) as (gs0 & Hgs0 & Hnum).
  destruct (adaptive_dt_rows self F lo hi rest Hdt)
    as (gs & bmag' & largest & mins & Hgs & _ & Hb' & _ & Hlm & Hrow & Hres);
    try assumption.
  { unfold vmax in Hvm. destruct (v self); [discriminate | simpl; lia]. }
  { destruct F; [discriminate | simpl; lia]. }
  rewrite Hgs0 in Hgs. injection Hgs as <-.
  rewrite Hb in Hb'. injection Hb' as <-.
  eexists. split; [exact Hres|]. split; [now rewrite length_map|].
  intros p Hp. rewrite (nth_map_in_range _ mins p F64.nan) by lia.
  specialize (Hrow p Hp).
  assert (Hcand : forall c, In c (candidates self gs0 (gyroperiod self bmag) p)
                            -> F64.isnan c = false).
  { intros c Hc. unfold candidates in Hc. apply in_app_or in Hc.
    destruct Hc as [Hc | [<- | []]].
    - unfold grid_candidates in Hc. apply in_map_iff in Hc.
      destruct Hc as (i & <- & Hi). apply in_seq in Hi.
      destruct (on_grid_at self p i); [|reflexivity].
      apply Hnum. apply nth_In.
      assert (Hl : length gs0 = num_grids self).
      { unfold gridstep in Hgs0. rewrite Hvm in Hgs0. cbn [bind] in Hgs0.
        injection Hgs0 as <-. apply length_map. }
      lia.
    - destruct (number_signed _ Hgyro) as [s Hs].
      apply (signed_number s).
      apply div_positive_signed; [exact Hs | reflexivity]. }
  assert (Hclip : forall a,
            In a (map (fun c => np_clip c lo hi)
                    (candidates self gs0 (gyroperiod self bmag) p)) ->
            F64.isnan a = false /\ fle lo a /\ fle a hi).
  { intros a Ha. apply in_map_iff in Ha. destruct Ha as (c & <- & Hc).
    now apply np_clip_spec; [apply Hcand| | |]. }
  destruct (np_min_spec
              (map (fun c => np_clip c lo hi)
                 (candidates self gs0 (gyroperiod self bmag) p)))
    as (low & Hlow & Hin & _).
  { intros Heq. apply map_eq_nil in Heq.
    exact (candidates_not_nil _ _ _ _ Heq). }
  { intros a Ha. now apply Hclip. }
  rewrite Hrow in Hlow. injection Hlow as <-.
  destruct (Hclip _ Hin) as (Hn & Hl1 & Hl2).
  now rewrite (fle_finite_not_inf _ hi Hn Hhi Hl2).
Qed.

Lemma finite_range_is_kept_witness :
  _adaptive_dt Cases.ranged [zero_fields] = Ok [F64.half].
Proof.
  destruct (finite_range_is_kept Cases.ranged [zero_fields]
              Fixtures.quarter F64.half F64.one F64.zero [] eq_refl)
    as (dts & Hd & _);
    [reflexivity | reflexivity | unfold fle, lex_le; simpl; lia
    | vm_compute; lia
    | | reflexivity | reflexivity | reflexivity | reflexivity |].
  - intros grid [<- | []]. reflexivity.
  - vm_compute. reflexivity.
Defined.

(** ** Fields that vanish at the edges *)

Lemma abs_zero a : F64.is_zero a = true -> F64.abs a = F64.zero.
Proof. now destruct a. Qed.

Lemma abs_finite_signed a :
  F64.isfinite a = true -> signed false (F64.abs a) = true.
Proof. now destruct a. Qed.

Lemma zero_not_above r :
  signed false r = true -> F64.gtb F64.zero r = false.
Proof. destruct r as [[]|[]| |[] mr er]; try discriminate; reflexivity. Qed.

Lemma flat_map_nil {A B : Type} (f : A -> list B) l :
  (forall a, In a l -> f a = []) -> flat_map f l = [].
Proof.
  induction l as [|a l IH]; intros Hf; simpl; [reflexivity|].
  rewrite (Hf a) by now left. apply IH. intros a' Ha'. apply Hf. now right.
Qed.

Lemma check_quantity_vanishing_edges grid rq values n0 n1 n2 :
  Grid.getitem grid rq = Ok values ->
  has_shape values n0 n1 n2 -> 0 < n0 /\ 0 < n1 /\ 0 < n2 ->
  forallb F64.isfinite (flatten3 values) = true ->
  (forall i j k, i < n0 -> j < n1 -> k < n2 -> on_boundary n0 n1 n2 i j k ->
                 F64.is_zero (entry values i j k) = true) ->
  check_quantity grid rq = Ok [].
Proof.
  intros Hv Hs Hp Hf Hedge.
  pose proof (has_shape_abs3 values n0 n1 n2 Hs) as Hs'.
  pose proof (numbers_abs3 values Hf) as Hn.
  destruct (edge_max_spec (abs3 values) n0 n1 n2 Hs' Hp Hn)
    as (em & Hem & (i & j & k & Hi & Hj & Hk & Hbd & He) & _).
  destruct (array_max_spec (abs3 values) n0 n1 n2 Hs' Hp Hn)
    as (mx & Hmx & (i' & j' & k' & Hi' & Hj' & Hk' & He') & _).
  rewrite entry_abs3 in He, He'.
  assert (Hem0 : em = F64.zero).
  { rewrite <- He. apply abs_zero. now apply Hedge. }
  assert (Hmxs : signed false mx = true).
  { rewrite <- He'. apply abs_finite_signed.
    rewrite forallb_forall in Hf. apply Hf.
    apply (in_flatten3 values n0 n1 n2 Hs). now exists i', j', k'. }
  unfold check_quantity. rewrite Hv. cbn [bind]. rewrite Hf. cbn [negb].
  fold (abs3 values). rewrite Hem. cbn [bind]. rewrite Hmx. cbn [bind].
  rewrite Hem0, zero_not_above; [reflexivity|].
  now apply mul_positive_signed.
Qed.

(** X13.  When every required quantity of every grid is a finite array with
    no empty axis whose entries on the six faces are all zero, the
    constructor emits no warning and builds the tracker, whatever the
    interior of the arrays holds and whether or not the keys are recognized
    ones. *)
Theorem vanishing_edges_pass_silently
    (gs gs' : list AbstractGrid) (rqs : list string) (verbose : bool)
    (Hreq : Forall2
              (fun g g' => Grid.require_quantities g (Some rqs) true = Ok g')
              gs gs')
    (Hq : forall g' rq, In g' gs' -> In rq rqs ->
            exists values n0 n1 n2,
              Grid.getitem g' rq = Ok values
              /\ has_shape values n0 n1 n2
              /\ (0 < n0 /\ 0 < n1 /\ 0 < n2)
              /\ forallb F64.isfinite (flatten3 values) = true
              /\ forall i j k, i < n0 -> j < n1 -> k < n2 ->
                   on_boundary n0 n1 n2 i j k ->
                   F64.is_zero (entry values i j k) = true) :
  exists t,
    __init__ (GridIterable gs) (Some rqs) verbose = ([], Ok t)
    /\ grids t = gs' /\ _has_run t = false.
Proof.
  assert (Hsilent : forall g' rq, In g' gs' -> In rq rqs ->
                                  check_quantity g' rq = Ok []).
  { intros g' rq Hg Hrq.
    destruct (Hq g' rq Hg Hrq) as (values & n0 & n1 & n2 & Hv & Hs & Hp
                                   & Hf & Hedge).
    exact (check_quantity_vanishing_edges g' rq values n0 n1 n2
             Hv Hs Hp Hf Hedge). }
  destruct (validate_grids_spec gs gs' rqs Hreq) as [Vok _].
  { intros g' rq Hg Hrq. left. exists []. now apply Hsilent. }
  unfold __init__. rewrite Vok.
  - rewrite flat_map_nil.
    + eexists. split; [reflexivity|]. now split.
    + intros g' Hg. apply flat_map_nil. intros rq Hrq.
      now rewrite (Hsilent g' rq Hg Hrq).
  - intros g' rq Hg Hrq. now rewrite (Hsilent g' rq Hg Hrq).
Qed.

Lemma vanishing_edges_pass_silently_witness :
  exists t,
    __init__ (GridIterable [Fixtures.charged_grid]) (Some ["E_x"]%string)
      false = ([], Ok t)
    /\ grids t = [Fixtures.charged_grid].
Proof.
  destruct (vanishing_edges_pass_silently
              [Fixtures.charged_grid] [Fixtures.charged_grid]
              ["E_x"]%string false) as (t & Ht & Hg & _).
  - repeat constructor.
  - intros g' rq [<- | []] [<- | []].
    exists (Fixtures.shell F64.zero F64.one), 3, 3, 3.
    split; [reflexivity|]. split; [now apply shape_ok_has_shape|].
    split; [lia|]. split; [reflexivity|].
    intros i j k Hi Hj Hk Hb.
    destruct i as [|[|[|i]]], j as [|[|[|j]]], k as [|[|[|k]]];
      try lia; try reflexivity.
    unfold on_boundary in Hb. lia.
  - exists t. now split.
Defined.

(** ** Two grids in either order *)

Lemma SFadd_comm prec emax a b : SFadd prec emax a b = SFadd prec emax b a.
Proof.
  destruct a as [sa|sa| |sa ma ea], b as [sb|sb| |sb mb eb]; simpl;
    try reflexivity; try (destruct sa, sb; reflexivity).
  now rewrite Z.min_comm, Z.add_comm.
Qed.

Lemma add_zero_first a b :
  F64.add (F64.add F64.zero a) b = F64.add a (F64.add F64.zero b).
Proof.
  destruct a as [[]|sa| |sa ma ea]; try reflexivity;
    destruct b as [[]|sb| |sb mb eb]; reflexivity.
Qed.

Lemma add_swap a b :
  F64.add (F64.add F64.zero a) b = F64.add (F64.add F64.zero b) a.
Proof. rewrite add_zero_first. apply SFadd_comm. Qed.

Lemma add_fields_swap c1 c2 :
  add_fields (add_fields zero_fields c1) c2
  = add_fields (add_fields zero_fields c2) c1.
Proof.
  destruct c1, c2. unfold add_fields, zero_fields.
  cbn [Ex Ey Ez Bx By Bz]. f_equal; apply add_swap.
Qed.

Lemma zip_with_swap n :
  forall c1 c2 : list fields,
    zip_with add_fields (zip_with add_fields (repeat zero_fields n) c1) c2
    = zip_with add_fields (zip_with add_fields (repeat zero_fields n) c2) c1.
Proof.
  induction n as [|n IH]; intros [|a c1] [|b c2]; simpl; try reflexivity.
  now rewrite add_fields_swap, IH.
Qed.

(** X14.  With two grids the totals do not depend on which grid comes
    first: every component of the field of every particle is the same
    binary64 number in either order. *)
Theorem two_grids_in_either_order (w : string) (g1 g2 : AbstractGrid)
    (pos : list vec3) (n : nat)
    (Hw : In w field_weightings) :
  exists F,
    sum_fields w [g1; g2] pos (repeat zero_fields n) = Ok F
    /\ sum_fields w [g2; g1] pos (repeat zero_fields n) = Ok F.
Proof.
  destruct (interpolate_valid w g1 pos Hw) as (r1 & H1 & _).
  destruct (interpolate_valid w g2 pos Hw) as (r2 & H2 & _).
  simpl. unfold contribution. rewrite H1, H2. simpl.
  eexists. split; [reflexivity|]. now rewrite zip_with_swap.
Qed.

Lemma two_grids_in_either_order_witness :
  exists F,
    sum_fields "nearest neighbor"
      [Fixtures.overflowing_grid; Fixtures.charged_grid]
      [Fixtures.origin] (repeat zero_fields 1) = Ok F
    /\ sum_fields "nearest neighbor"
         [Fixtures.charged_grid; Fixtures.overflowing_grid]
         [Fixtures.origin] (repeat zero_fields 1) = Ok F.
Proof.
  apply (two_grids_in_either_order "nearest neighbor"
           Fixtures.overflowing_grid Fixtures.charged_grid
           [Fixtures.origin] 1).
  simpl. right. left. reflexivity.
Defined.
